(** * Product synchronisation between Moysklad and Shopify

    A shallow embedding of [services/pruduct_sync_service.py]
    (class [ProductSyncService]) and the properties of its batch scheduler,
    retry wrapper, reconciliation tasks and watermark handling.

    Conventions of the embedding.
    - An [async def] of the service is a computation [M State A]: a function
      from the state of the process to a Python outcome (a returned value or
      a raised exception) and the next state.
    - The state holds the one mutable attribute of the service
      ([last_sync_time]), the chronological trace of observable events
      (remote calls, sleeps, log records) and the number of
      [datetime.now()] readings taken so far.
    - The two platform services, the wall clock, the configuration and the
      converters of [utils.converters] are not part of the file under study:
      they are parameters of the development.
    - [asyncio.gather] is modelled by the schedule that runs the awaitables
      to completion in submission order; results are collected by position,
      as [gather] does. *)

From stdpp Require Import gmap strings list.
From Stdlib Require Import ZArith Lia.

Local Open Scope Z_scope.
Local Open Scope string_scope.

(** ** Python outcomes *)

(** The exception classes the service distinguishes: the two platform errors
    of [utils.exceptions], any other subclass of [Exception], and tenacity's
    [RetryError], which wraps the exception of the last attempt. *)
Inductive PyExc : Type :=
| MoyskladError (msg : string)
| ShopifyError (msg : string)
| OtherException (msg : string)
| RetryError (last_attempt : PyExc).

Inductive Result (A : Type) : Type :=
| Ok (value : A)
| Raise (exc : PyExc).
Arguments Ok {A} value.
Arguments Raise {A} exc.

Definition is_ok {A} (r : Result A) : bool :=
  match r with Ok _ => true | Raise _ => false end.

(** ** The state-and-exception monad *)

Definition M (St A : Type) : Type := St → Result A * St.

Definition ret {St A} (a : A) : M St A := λ s, (Ok a, s).

Definition raise {St A} (e : PyExc) : M St A := λ s, (Raise e, s).

Definition bind {St A B} (m : M St A) (k : A → M St B) : M St B :=
  λ s, match m s with
       | (Ok a, s1) => k a s1
       | (Raise e, s1) => (Raise e, s1)
       end.

(** [try: body  except Exception as e: handler(e)] *)
Definition try_except {St A} (body : M St A) (handler : PyExc → M St A) : M St A :=
  λ s, match body s with
       | (Ok a, s1) => (Ok a, s1)
       | (Raise e, s1) => handler e s1
       end.

Declare Scope py_scope.
Delimit Scope py_scope with py.
Notation "x <- m ;; k" := (bind m (λ x, k))
  (at level 100, m at next level, right associativity) : py_scope.
Notation "m ;;; k" := (bind m (λ _, k))
  (at level 100, right associativity) : py_scope.
Local Open Scope py_scope.

(** [for x in xs: acc = body(x, acc)], stopping at the first exception. *)
Fixpoint for_each {St X Acc} (xs : list X) (body : X → Acc → M St Acc)
    (acc : Acc) : M St Acc :=
  match xs with
  | [] => ret acc
  | x :: rest => acc1 <- body x acc ;; for_each rest body acc1
  end.

(** [range(0, stop, step)] for a positive step. *)
Definition range_step (stop step : nat) : list nat :=
  map (λ k, k * step)%nat (seq 0 ((stop + step - 1) / step)).

(** The slice [l[i:j]]. *)
Definition slice {A} (l : list A) (i j : nat) : list A :=
  take (j - i) (drop i l).

(** ** Optional attributes *)

(** An attribute the service probes with [hasattr] before it reads it: the
    object may lack it, or have it, holding [None] or a value. *)
Inductive Attribute (A : Type) : Type :=
| Missing
| Holds (value : option A).
Arguments Missing {A}.
Arguments Holds {A} value.

(** [hasattr(obj, name)] *)
Definition hasattr {A} (a : Attribute A) : bool :=
  match a with Holds _ => true | Missing => false end.

(** ** Log records *)

Inductive Level : Type := INFO | WARNING | ERROR.

(** What the code logs through [logger]: the level and the message.  The
    message is kept as the f-string template of the source with the values
    substituted for its fields, in order. *)
Class Logging (Arg St : Type) : Type :=
  log_record : Level → string → list Arg → St → St.

Section ProductSync.

(** The numeric type of prices.  The service only ever tests prices with
    [!=] and [is not None] and hands them to the converters and the
    platform services, so all it needs is a decidable equality. *)
Context {Price : Type} `{EqDecision Price}.

(** ** Data model *)

(** The attributes of [models.models.MoyskladProduct] the service reads.
    [code], [price] and [stock] are read without a probe and hold [None]
    or a value; [updated_at] is probed with [hasattr] first.  Timestamps
    are microseconds on the time line of the wall clock. *)
Record MoyskladProduct : Type := {
  ms_id : string;
  ms_code : option string;
  ms_price : option Price;
  ms_stock : option Z;
  ms_updated_at : Attribute Z
}.

(** The attributes of [models.models.ShopifyProduct] the service reads. *)
Record ShopifyProduct : Type := {
  sh_id : string;
  sh_sku : option string;
  sh_price : option Price;
  sh_variant_id : string;
  sh_inventory_item_id : string;
  sh_inventory_quantity : option Z;
  sh_updated_at : Attribute Z
}.

(** [updated_data.id = shopify_product.id] *)
Definition sh_set_id (p : ShopifyProduct) (id : string) : ShopifyProduct :=
  {| sh_id := id; sh_sku := sh_sku p; sh_price := sh_price p;
     sh_variant_id := sh_variant_id p;
     sh_inventory_item_id := sh_inventory_item_id p;
     sh_inventory_quantity := sh_inventory_quantity p;
     sh_updated_at := sh_updated_at p |}.

(** [updated_data.id = moysklad_product.id] *)
Definition ms_set_id (p : MoyskladProduct) (id : string) : MoyskladProduct :=
  {| ms_id := id; ms_code := ms_code p; ms_price := ms_price p;
     ms_stock := ms_stock p; ms_updated_at := ms_updated_at p |}.

(** Truth value of an identity key in [if p.code]: [None] and the empty
    string are false. *)
Definition truthy (key : option string) : bool :=
  match key with
  | Some k => negb (String.eqb k "")
  | None => false
  end.

(** [d.get(key)] on a dictionary whose keys are strings. *)
Definition dict_get {V} (d : gmap string V) (key : option string) : option V :=
  match key with
  | Some k => d !! k
  | None => None
  end.

(** [{p.code: p for p in products if p.code}]: later entries overwrite
    earlier ones with the same key. *)
Definition index_by {V} (key : V → option string) (products : list V)
    : gmap string V :=
  foldl (λ d p, match key p with
                | Some k => if truthy (key p) then <[k := p]> d else d
                | None => d
                end) ∅ products.

(** ** Observable events *)

(** A request to one of the two platform services, with the arguments the
    service passes.  A keyword argument the call leaves out is recorded at
    its default ([False] for the flags, [None] for [modified_since]). *)
Inductive RemoteCall : Type :=
| MsGetAllProducts (with_stock : bool) (modified_since : option Z)
| ShGetAllProducts (with_inventory : bool) (modified_since : option Z)
| ShCreateProduct (data : ShopifyProduct)
| ShUpdateProduct (data : ShopifyProduct)
| MsCreateProduct (data : MoyskladProduct)
| MsUpdateProduct (data : MoyskladProduct)
| ShUpdateInventory (product_id inventory_item_id : string) (quantity : Z)
| ShUpdatePrice (product_id variant_id : string) (price : Price)
| MsUpdatePrice (product_id : string) (price : Price).

(** A value substituted into a log message. *)
Inductive LogArg : Type :=
| AStr (s : string)
| ANat (n : nat)
| AInt (z : Z)
| ABool (b : bool)
| ATime (t : Z)
| APrice (p : Price)
| AExc (e : PyExc).

Inductive Event : Type :=
| EvCall (c : RemoteCall)
| EvSleep (millis : nat)
| EvLog (lvl : Level) (template : string) (args : list LogArg).

(** ** The state of the process *)

Record State : Type := {
  last_sync_time : option Z;
  trace : list Event;
  ticks : nat
}.

Definition emit (ev : Event) (s : State) : State :=
  {| last_sync_time := last_sync_time s;
     trace := trace s ++ [ev];
     ticks := ticks s |}.

Definition set_last_sync_time (t : option Z) (s : State) : State :=
  {| last_sync_time := t; trace := trace s; ticks := ticks s |}.

#[global] Instance State_logging : Logging LogArg State :=
  λ lvl template args, emit (EvLog lvl template args).

(** [logger.info], [logger.warning], [logger.error]; [logger.exception]
    logs at level [ERROR]. *)
Definition logger {St} `{Logging LogArg St} (lvl : Level) (template : string)
    (args : list LogArg) : M St unit :=
  λ s, (Ok tt, log_record lvl template args s).

(** [await asyncio.sleep(seconds)], in milliseconds. *)
Definition sleep (millis : nat) : M State unit :=
  λ s, (Ok tt, emit (EvSleep millis) s).

(** ** The batch scheduler *)

Definition BATCH_SIZE : nat := 50.
Definition MAX_CONCURRENT_TASKS : nat := 5.

Section Scheduler.
Context {St : Type} `{Logging LogArg St} {T : Type}.

(** [await asyncio.gather] of the batch with [return_exceptions=True]: every
    awaitable runs to its outcome, and the outcomes are returned in the
    order of the awaitables; an exception is an element of the list. *)
Fixpoint gather_return_exceptions (batch : list (M St T))
    : M St (list (Result T)) :=
  match batch with
  | [] => ret []
  | task :: rest =>
      λ s, let '(result, s1) := task s in
           (batch_results <- gather_return_exceptions rest ;;
            ret (result :: batch_results)) s1
  end.

(** The loop [for j, result in enumerate(batch_results)] at offset [i]. *)
Fixpoint process_batch_results (i j : nat) (batch_results : list (Result T))
    (results : list T) : M St (list T) :=
  match batch_results with
  | [] => ret results
  | result :: rest =>
      match result with
      | Raise e =>
          (* isinstance(result, Exception) *)
          logger ERROR "Task {} failed: {}" [ANat (i + j); AExc e] ;;;
          process_batch_results i (S j) rest results
      | Ok v =>
          process_batch_results i (S j) rest (results ++ [v])
      end
  end.

Definition _execute_tasks_with_limited_concurrency (tasks : list (M St T))
    : M St (list T) :=
  for_each (range_step (length tasks) MAX_CONCURRENT_TASKS)
    (λ i results,
       let batch := slice tasks i (i + MAX_CONCURRENT_TASKS) in
       batch_results <- gather_return_exceptions batch ;;
       process_batch_results i 0 batch_results results)
    [].
End Scheduler.

(** ** The collaborators *)

(** [ShopifyService] and [MoyskladService]: what a request returns or
    raises, as a function of everything observable that happened before
    it and of its arguments. *)
Record Remote : Type := {
  ms_get_all_products :
    list Event → bool → option Z → Result (list MoyskladProduct);
  sh_get_all_products :
    list Event → bool → option Z → Result (list ShopifyProduct);
  sh_create_product : list Event → ShopifyProduct → Result ShopifyProduct;
  sh_update_product : list Event → ShopifyProduct → Result ShopifyProduct;
  ms_create_product : list Event → MoyskladProduct → Result MoyskladProduct;
  ms_update_product : list Event → MoyskladProduct → Result MoyskladProduct;
  sh_update_inventory : list Event → string → string → Z → Result unit;
  sh_update_price : list Event → string → string → Price → Result unit;
  ms_update_price : list Event → string → Price → Result unit
}.

(** Everything the service is given from outside:
    - [utils.converters]: the field mapping between the two record schemas
      and the conversion of a Shopify price to Moysklad's price format;
    - the two platform services;
    - the successive readings of [datetime.now()], in microseconds;
    - [config.price_sync_direction]. *)
Class Collaborators : Type := {
  moysklad_to_shopify_product : MoyskladProduct → ShopifyProduct;
  shopify_to_moysklad_product : ShopifyProduct → MoyskladProduct;
  price_to_moysklad_format : Price → Price;
  remote : Remote;
  wall_clock : nat → Z;
  price_sync_direction : string
}.

Context `{Collaborators}.

(** A request: the call is recorded, and the service answers. *)
Definition request {A} (c : RemoteCall) (answer : list Event → Result A)
    : M State A :=
  λ s, (answer (trace s), emit (EvCall c) s).

Definition moysklad_service_get_all_products (with_stock : bool)
    (modified_since : option Z) : M State (list MoyskladProduct) :=
  request (MsGetAllProducts with_stock modified_since)
    (λ tr, ms_get_all_products remote tr with_stock modified_since).

Definition shopify_service_get_all_products (with_inventory : bool)
    (modified_since : option Z) : M State (list ShopifyProduct) :=
  request (ShGetAllProducts with_inventory modified_since)
    (λ tr, sh_get_all_products remote tr with_inventory modified_since).

Definition shopify_service_create_product (data : ShopifyProduct)
    : M State ShopifyProduct :=
  request (ShCreateProduct data) (λ tr, sh_create_product remote tr data).

Definition shopify_service_update_product (data : ShopifyProduct)
    : M State ShopifyProduct :=
  request (ShUpdateProduct data) (λ tr, sh_update_product remote tr data).

Definition moysklad_service_create_product (data : MoyskladProduct)
    : M State MoyskladProduct :=
  request (MsCreateProduct data) (λ tr, ms_create_product remote tr data).

Definition moysklad_service_update_product (data : MoyskladProduct)
    : M State MoyskladProduct :=
  request (MsUpdateProduct data) (λ tr, ms_update_product remote tr data).

Definition shopify_service_update_inventory (product_id inventory_item_id : string)
    (quantity : Z) : M State unit :=
  request (ShUpdateInventory product_id inventory_item_id quantity)
    (λ tr, sh_update_inventory remote tr product_id inventory_item_id quantity).

Definition shopify_service_update_price (product_id variant_id : string)
    (price : Price) : M State unit :=
  request (ShUpdatePrice product_id variant_id price)
    (λ tr, sh_update_price remote tr product_id variant_id price).

Definition moysklad_service_update_price (product_id : string) (price : Price)
    : M State unit :=
  request (MsUpdatePrice product_id price)
    (λ tr, ms_update_price remote tr product_id price).

(** [datetime.now()] *)
Definition datetime_now : M State Z :=
  λ s, (Ok (wall_clock (ticks s)),
        {| last_sync_time := last_sync_time s;
           trace := trace s;
           ticks := S (ticks s) |}).

Definition timedelta_hours (h : Z) : Z := h * 3600000000.

Definition get_last_sync_time : M State (option Z) :=
  λ s, (Ok (last_sync_time s), s).

Definition assign_last_sync_time (t : Z) : M State unit :=
  λ s, (Ok tt, set_last_sync_time (Some t) s).

(** ** The retry wrapper *)

(** tenacity's [@retry(stop=stop_after_attempt(n), wait=wait_fixed(w))]
    around a coroutine function: the function is called; when it raises and
    fewer than [n] attempts were made, the wrapper sleeps [w] and calls it
    again; when the [n]-th attempt raises, the wrapper raises [RetryError]
    around that attempt's exception.  [more] counts the attempts left after
    the current one. *)
Fixpoint retrying {A} (more : nat) (wait_millis : nat) (fn : M State A)
    : M State A :=
  λ s, match fn s with
       | (Ok v, s1) => (Ok v, s1)
       | (Raise e, s1) =>
           match more with
           | O => (Raise (RetryError e), s1)
           | S more' => (sleep wait_millis ;;; retrying more' wait_millis fn) s1
           end
       end.

Definition retry {A} (stop_after_attempt : nat) (wait_fixed_seconds : nat)
    (fn : M State A) : M State A :=
  retrying (stop_after_attempt - 1) (wait_fixed_seconds * 1000) fn.

(** ** The per-product tasks *)

(** The body of [_create_shopify_product], one attempt. *)
Definition create_shopify_product_attempt (ms_product : MoyskladProduct)
    : M State ShopifyProduct :=
  logger INFO "Creating new Shopify product from Moysklad ID: {}"
    [AStr (ms_id ms_product)] ;;;
  try_except
    (let shopify_product_data := moysklad_to_shopify_product ms_product in
     shopify_product <- shopify_service_create_product shopify_product_data ;;
     logger INFO "Successfully created Shopify product: {}"
       [AStr (sh_id shopify_product)] ;;;
     ret shopify_product)
    (λ e,
       logger ERROR "Failed to create Shopify product from Moysklad ID {}: {}"
         [AStr (ms_id ms_product); AExc e] ;;;
       raise e).

Definition _create_shopify_product (ms_product : MoyskladProduct)
    : M State ShopifyProduct :=
  retry 3 2 (create_shopify_product_attempt ms_product).

(** The name Python gives the type of an [updated_at] value in the message
    of a [TypeError]. *)
Definition type_name (value : option Z) : string :=
  match value with
  | Some _ => "datetime.datetime"
  | None => "NoneType"
  end.

(** The [TypeError] of a comparison between values that have no order; it
    is a subclass of [Exception] other than the platform errors. *)
Definition TypeError_le (a b : option Z) : PyExc :=
  OtherException
    ("'<=' not supported between instances of '" ++ type_name a
     ++ "' and '" ++ type_name b ++ "'").

(** [a <= b] on two [updated_at] values: timestamps are ordered, and a
    comparison that involves [None] raises [TypeError]. *)
Definition datetime_le (a b : option Z) : M State bool :=
  match a, b with
  | Some x, Some y => ret (bool_decide (x ≤ y)%Z)
  | _, _ => raise (TypeError_le a b)
  end.

(** The test that guards the skip in the two update tasks,
    [[
      if hasattr(source, 'updated_at') and hasattr(target, 'updated_at'):
          if source.updated_at <= target.updated_at:
    ]]
    as the computation of whether the skip is taken.  The comparison is
    evaluated, and can raise, only when both objects have the attribute. *)
Definition unchanged_since (source target : Attribute Z) : M State bool :=
  match source, target with
  | Holds a, Holds b => datetime_le a b
  | _, _ => ret false
  end.

(** The body of [_update_shopify_product], one attempt. *)
Definition update_shopify_product_attempt (ms_product : MoyskladProduct)
    (shopify_product : ShopifyProduct) : M State ShopifyProduct :=
  logger INFO "Updating Shopify product {} from Moysklad ID: {}"
    [AStr (sh_id shopify_product); AStr (ms_id ms_product)] ;;;
  try_except
    (skip <- unchanged_since (ms_updated_at ms_product)
               (sh_updated_at shopify_product) ;;
     if skip
     then
       logger INFO "Skipping update for Shopify product {} - no changes detected"
         [AStr (sh_id shopify_product)] ;;;
       ret shopify_product
     else
       let updated_data := moysklad_to_shopify_product ms_product in
       let updated_data := sh_set_id updated_data (sh_id shopify_product) in
       updated_product <- shopify_service_update_product updated_data ;;
       logger INFO "Successfully updated Shopify product: {}"
         [AStr (sh_id shopify_product)] ;;;
       ret updated_product)
    (λ e,
       logger ERROR "Failed to update Shopify product {}: {}"
         [AStr (sh_id shopify_product); AExc e] ;;;
       raise e).

Definition _update_shopify_product (ms_product : MoyskladProduct)
    (shopify_product : ShopifyProduct) : M State ShopifyProduct :=
  retry 3 2 (update_shopify_product_attempt ms_product shopify_product).

(** The body of [_create_moysklad_product], one attempt. *)
Definition create_moysklad_product_attempt (shopify_product : ShopifyProduct)
    : M State MoyskladProduct :=
  logger INFO "Creating new Moysklad product from Shopify ID: {}"
    [AStr (sh_id shopify_product)] ;;;
  try_except
    (let moysklad_product_data := shopify_to_moysklad_product shopify_product in
     moysklad_product <- moysklad_service_create_product moysklad_product_data ;;
     logger INFO "Successfully created Moysklad product: {}"
       [AStr (ms_id moysklad_product)] ;;;
     ret moysklad_product)
    (λ e,
       logger ERROR "Failed to create Moysklad product from Shopify ID {}: {}"
         [AStr (sh_id shopify_product); AExc e] ;;;
       raise e).

Definition _create_moysklad_product (shopify_product : ShopifyProduct)
    : M State MoyskladProduct :=
  retry 3 2 (create_moysklad_product_attempt shopify_product).

(** The body of [_update_moysklad_product], one attempt. *)
Definition update_moysklad_product_attempt (shopify_product : ShopifyProduct)
    (moysklad_product : MoyskladProduct) : M State MoyskladProduct :=
  logger INFO "Updating Moysklad product {} from Shopify ID: {}"
    [AStr (ms_id moysklad_product); AStr (sh_id shopify_product)] ;;;
  try_except
    (skip <- unchanged_since (sh_updated_at shopify_product)
               (ms_updated_at moysklad_product) ;;
     if skip
     then
       logger INFO "Skipping update for Moysklad product {} - no changes detected"
         [AStr (ms_id moysklad_product)] ;;;
       ret moysklad_product
     else
       let updated_data := shopify_to_moysklad_product shopify_product in
       let updated_data := ms_set_id updated_data (ms_id moysklad_product) in
       updated_product <- moysklad_service_update_product updated_data ;;
       logger INFO "Successfully updated Moysklad product: {}"
         [AStr (ms_id moysklad_product)] ;;;
       ret updated_product)
    (λ e,
       logger ERROR "Failed to update Moysklad product {}: {}"
         [AStr (ms_id moysklad_product); AExc e] ;;;
       raise e).

Definition _update_moysklad_product (shopify_product : ShopifyProduct)
    (moysklad_product : MoyskladProduct) : M State MoyskladProduct :=
  retry 3 2 (update_moysklad_product_attempt shopify_product moysklad_product).

(** ** Product reconciliation, one direction at a time *)

(** The task list of one batch in [_sync_moysklad_to_shopify]: an update
    task when the index has a counterpart, a create task otherwise. *)
Definition moysklad_batch_tasks (shopify_by_sku : gmap string ShopifyProduct)
    (batch : list MoyskladProduct) : list (M State ShopifyProduct) :=
  map (λ ms_product,
         match dict_get shopify_by_sku (ms_code ms_product) with
         | Some shopify_product =>
             _update_shopify_product ms_product shopify_product
         | None => _create_shopify_product ms_product
         end) batch.

Definition _sync_moysklad_to_shopify (moysklad_products : list MoyskladProduct)
    (shopify_by_sku : gmap string ShopifyProduct) : M State unit :=
  logger INFO "Starting sync from Moysklad to Shopify" [] ;;;
  let valid_products := List.filter (λ p, truthy (ms_code p)) moysklad_products in
  logger INFO "Found {} Moysklad products with valid codes"
    [ANat (length valid_products)] ;;;
  for_each (range_step (length valid_products) BATCH_SIZE)
    (λ i _,
       let batch := slice valid_products i (i + BATCH_SIZE) in
       logger INFO "Processing Moysklad batch {}/{}, size: {}"
         [ANat (i / BATCH_SIZE + 1);
          ANat ((length valid_products + BATCH_SIZE - 1) / BATCH_SIZE);
          ANat (length batch)] ;;;
       let tasks := moysklad_batch_tasks shopify_by_sku batch in
       _execute_tasks_with_limited_concurrency tasks ;;;
       sleep 500)
    tt.

(** The task list of one batch in [_sync_shopify_to_moysklad]. *)
Definition shopify_batch_tasks (moysklad_by_code : gmap string MoyskladProduct)
    (batch : list ShopifyProduct) : list (M State MoyskladProduct) :=
  map (λ shopify_product,
         match dict_get moysklad_by_code (sh_sku shopify_product) with
         | Some moysklad_product =>
             _update_moysklad_product shopify_product moysklad_product
         | None => _create_moysklad_product shopify_product
         end) batch.

Definition _sync_shopify_to_moysklad (shopify_products : list ShopifyProduct)
    (moysklad_by_code : gmap string MoyskladProduct) : M State unit :=
  logger INFO "Starting sync from Shopify to Moysklad" [] ;;;
  let valid_products := List.filter (λ p, truthy (sh_sku p)) shopify_products in
  logger INFO "Found {} Shopify products with valid SKUs"
    [ANat (length valid_products)] ;;;
  for_each (range_step (length valid_products) BATCH_SIZE)
    (λ i _,
       let batch := slice valid_products i (i + BATCH_SIZE) in
       logger INFO "Processing Shopify batch {}/{}, size: {}"
         [ANat (i / BATCH_SIZE + 1);
          ANat ((length valid_products + BATCH_SIZE - 1) / BATCH_SIZE);
          ANat (length batch)] ;;;
       let tasks := shopify_batch_tasks moysklad_by_code batch in
       _execute_tasks_with_limited_concurrency tasks ;;;
       sleep 500)
    tt.

(** [await asyncio.gather(a, b)]: both awaitables run; the first exception
    in submission order is raised to the caller, and the other awaitable is
    not cancelled. *)
Definition gather2 {A B} (a : M State A) (b : M State B) : M State (A * B) :=
  λ s, let '(ra, s1) := a s in
       let '(rb, s2) := b s1 in
       (match ra, rb with
        | Ok x, Ok y => Ok (x, y)
        | Raise e, _ => Raise e
        | Ok _, Raise e => Raise e
        end, s2).

(** ** The products phase *)

(** The choice of [modified_since] at the head of [sync_products]. *)
Definition products_modified_since (full_sync : bool) : M State (option Z) :=
  last <- get_last_sync_time ;;
  match negb full_sync, last with
  | true, Some t =>
      logger INFO "Performing incremental sync since {}" [ATime t] ;;;
      ret (Some t)
  | _, _ =>
      modified_since <-
        (if negb full_sync
         then (t <- datetime_now ;; ret (Some (t - timedelta_hours 24)%Z))
         else ret None) ;;
      logger INFO "Performing {} sync"
        [AStr (if full_sync then "full" else "default 24-hour")] ;;;
      ret modified_since
  end.

Definition sync_products (full_sync : bool) : M State unit :=
  try_except
    (start_time <- datetime_now ;;
     logger INFO "Starting product synchronization. Full sync: {}"
       [ABool full_sync] ;;;
     modified_since <- products_modified_since full_sync ;;
     moysklad_products <-
       moysklad_service_get_all_products false modified_since ;;
     shopify_products <-
       shopify_service_get_all_products false modified_since ;;
     logger INFO "Found {} products in Moysklad to process"
       [ANat (length moysklad_products)] ;;;
     logger INFO "Found {} products in Shopify to process"
       [ANat (length shopify_products)] ;;;
     all_products <-
       (if negb full_sync && bool_decide (is_Some modified_since)
        then
          all_moysklad_products <- moysklad_service_get_all_products false None ;;
          all_shopify_products <- shopify_service_get_all_products false None ;;
          ret (all_moysklad_products, all_shopify_products)
        else ret (moysklad_products, shopify_products)) ;;
     let moysklad_by_code := index_by ms_code (fst all_products) in
     let shopify_by_sku := index_by sh_sku (snd all_products) in
     gather2 (_sync_moysklad_to_shopify moysklad_products shopify_by_sku)
             (_sync_shopify_to_moysklad shopify_products moysklad_by_code) ;;;
     assign_last_sync_time start_time ;;;
     finish <- datetime_now ;;
     logger INFO "Product synchronization completed successfully in {}"
       [ATime (finish - start_time)%Z])
    (λ e,
       match e with
       | MoyskladError _ | ShopifyError _ =>
           logger ERROR "Error during product synchronization: {}" [AExc e] ;;;
           raise e
       | _ =>
           logger ERROR "Unexpected error during product synchronization: {}"
             [AExc e] ;;;
           raise e
       end).

(** ** The inventory phase *)

(** [current_stock is not None and current_stock == moysklad_stock] *)
Definition stock_unchanged (current_stock : option Z) (moysklad_stock : Z) : bool :=
  match current_stock with
  | Some c => bool_decide (c = moysklad_stock)
  | None => false
  end.

(** The body of [_update_shopify_inventory], one attempt. *)
Definition update_shopify_inventory_attempt (ms_product : MoyskladProduct)
    (shopify_product : ShopifyProduct) : M State unit :=
  logger INFO "Updating inventory for Shopify product {}"
    [AStr (sh_id shopify_product)] ;;;
  try_except
    (let current_stock := sh_inventory_quantity shopify_product in
     let moysklad_stock :=
       match ms_stock ms_product with Some q => q | None => 0%Z end in
     if stock_unchanged current_stock moysklad_stock then
       logger INFO
         "Skipping inventory update for Shopify product {} - no change needed"
         [AStr (sh_id shopify_product)] ;;;
       ret tt
     else
       shopify_service_update_inventory (sh_id shopify_product)
         (sh_inventory_item_id shopify_product) moysklad_stock ;;;
       logger INFO "Successfully updated inventory for Shopify product {} to {}"
         [AStr (sh_id shopify_product); AInt moysklad_stock])
    (λ e,
       logger ERROR "Failed to update inventory for Shopify product {}: {}"
         [AStr (sh_id shopify_product); AExc e] ;;;
       raise e).

Definition _update_shopify_inventory (ms_product : MoyskladProduct)
    (shopify_product : ShopifyProduct) : M State unit :=
  retry 3 2 (update_shopify_inventory_attempt ms_product shopify_product).

(** The choice of [modified_since] at the head of [sync_product_inventory]
    and of [sync_product_prices]; [what] is the word of the log message. *)
Definition phase_modified_since (what : string) (full_sync : bool)
    : M State (option Z) :=
  last <- get_last_sync_time ;;
  match negb full_sync, last with
  | true, Some t =>
      logger INFO ("Performing incremental " ++ what ++ " sync since {}")
        [ATime t] ;;;
      ret (Some t)
  | _, _ => ret None
  end.

(** [[(p, index.get(p.code)) for p in products if p.code and p.code in index]] *)
Definition inventory_pairs (moysklad_products : list MoyskladProduct)
    (shopify_by_sku : gmap string ShopifyProduct)
    : list (MoyskladProduct * ShopifyProduct) :=
  omap (λ ms_product,
          if truthy (ms_code ms_product) then
            match dict_get shopify_by_sku (ms_code ms_product) with
            | Some shopify_product => Some (ms_product, shopify_product)
            | None => None
            end
          else None) moysklad_products.

Definition sync_product_inventory (full_sync : bool) : M State unit :=
  try_except
    (start_time <- datetime_now ;;
     logger INFO "Starting inventory synchronization. Full sync: {}"
       [ABool full_sync] ;;;
     modified_since <- phase_modified_since "inventory" full_sync ;;
     moysklad_products <-
       moysklad_service_get_all_products true modified_since ;;
     shopify_products <- shopify_service_get_all_products true None ;;
     logger INFO "Found {} Moysklad products with stock information"
       [ANat (length moysklad_products)] ;;;
     logger INFO "Found {} Shopify products for inventory update"
       [ANat (length shopify_products)] ;;;
     let shopify_by_sku := index_by sh_sku shopify_products in
     let valid_products := inventory_pairs moysklad_products shopify_by_sku in
     logger INFO "Found {} products to update inventory"
       [ANat (length valid_products)] ;;;
     for_each (range_step (length valid_products) BATCH_SIZE)
       (λ i _,
          let batch := slice valid_products i (i + BATCH_SIZE) in
          logger INFO "Processing inventory batch {}/{}, size: {}"
            [ANat (i / BATCH_SIZE + 1);
             ANat ((length valid_products + BATCH_SIZE - 1) / BATCH_SIZE);
             ANat (length batch)] ;;;
          let tasks :=
            map (λ pair, _update_shopify_inventory (fst pair) (snd pair)) batch in
          _execute_tasks_with_limited_concurrency tasks ;;;
          sleep 500)
       tt ;;;
     finish <- datetime_now ;;
     logger INFO "Inventory synchronization completed successfully in {}"
       [ATime (finish - start_time)%Z])
    (λ e,
       logger ERROR "Error during inventory synchronization: {}" [AExc e] ;;;
       raise e).

(** ** The price phase *)

(** The body of [_update_shopify_price], one attempt. *)
Definition update_shopify_price_attempt (product_id variant_id : string)
    (price : Price) : M State unit :=
  try_except
    (shopify_service_update_price product_id variant_id price ;;;
     logger INFO "Updated price for Shopify product {} to {}"
       [AStr product_id; APrice price])
    (λ e,
       logger ERROR "Failed to update price for Shopify product {}: {}"
         [AStr product_id; AExc e] ;;;
       raise e).

Definition _update_shopify_price (product_id variant_id : string) (price : Price)
    : M State unit :=
  retry 3 2 (update_shopify_price_attempt product_id variant_id price).

(** The body of [_update_moysklad_price], one attempt. *)
Definition update_moysklad_price_attempt (product_id : string) (price : Price)
    : M State unit :=
  try_except
    (moysklad_service_update_price product_id price ;;;
     logger INFO "Updated price for Moysklad product {} to {}"
       [AStr product_id; APrice price])
    (λ e,
       logger ERROR "Failed to update price for Moysklad product {}: {}"
         [AStr product_id; AExc e] ;;;
       raise e).

Definition _update_moysklad_price (product_id : string) (price : Price)
    : M State unit :=
  retry 3 2 (update_moysklad_price_attempt product_id price).

(** Python's [a != b] on two prices that may be [None]. *)
Definition price_ne (a b : option Price) : bool := negb (bool_decide (a = b)).

(** [valid_products] of [_sync_prices_moysklad_to_shopify]. *)
Definition moysklad_price_pairs (moysklad_products : list MoyskladProduct)
    (shopify_by_sku : gmap string ShopifyProduct)
    : list (MoyskladProduct * ShopifyProduct) :=
  omap (λ ms_product,
          if truthy (ms_code ms_product)
             && bool_decide (is_Some (ms_price ms_product)) then
            match dict_get shopify_by_sku (ms_code ms_product) with
            | Some shopify_product => Some (ms_product, shopify_product)
            | None => None
            end
          else None) moysklad_products.

(** The tasks one pair contributes to its batch: one price update when the
    Shopify price differs from the Moysklad price, none otherwise.  The
    Moysklad price of a pair is never [None]: [valid_products] keeps only
    products that have one. *)
Definition moysklad_price_task (pair : MoyskladProduct * ShopifyProduct)
    : list (M State unit) :=
  let '(ms_product, shopify_product) := pair in
  if price_ne (sh_price shopify_product) (ms_price ms_product) then
    match ms_price ms_product with
    | Some price =>
        [_update_shopify_price (sh_id shopify_product)
           (sh_variant_id shopify_product) price]
    | None => []
    end
  else [].

(** The body of the batch loop shared by the two price directions. *)
Definition run_price_batch (tasks : list (M State unit)) : M State unit :=
  (match tasks with
   | _ :: _ => _execute_tasks_with_limited_concurrency tasks ;;; ret tt
   | [] => logger INFO "No price updates needed for this batch" []
   end) ;;;
  sleep 500.

Definition _sync_prices_moysklad_to_shopify
    (moysklad_products : list MoyskladProduct)
    (shopify_by_sku : gmap string ShopifyProduct) (batch_size : nat)
    : M State unit :=
  logger INFO "Syncing prices from Moysklad to Shopify" [] ;;;
  let valid_products := moysklad_price_pairs moysklad_products shopify_by_sku in
  logger INFO "Found {} products to update prices"
    [ANat (length valid_products)] ;;;
  for_each (range_step (length valid_products) batch_size)
    (λ i _,
       let batch := slice valid_products i (i + batch_size) in
       logger INFO "Processing price batch {}/{}, size: {}"
         [ANat (i / batch_size + 1);
          ANat ((length valid_products + batch_size - 1) / batch_size);
          ANat (length batch)] ;;;
       run_price_batch (concat (map moysklad_price_task batch)))
    tt.

(** [valid_products] of [_sync_prices_shopify_to_moysklad]. *)
Definition shopify_price_pairs (shopify_products : list ShopifyProduct)
    (moysklad_by_code : gmap string MoyskladProduct)
    : list (ShopifyProduct * MoyskladProduct) :=
  omap (λ shopify_product,
          if truthy (sh_sku shopify_product)
             && bool_decide (is_Some (sh_price shopify_product)) then
            match dict_get moysklad_by_code (sh_sku shopify_product) with
            | Some moysklad_product => Some (shopify_product, moysklad_product)
            | None => None
            end
          else None) shopify_products.

(** The tasks one pair contributes to its batch: the Shopify price is
    converted to Moysklad's format, and one price update is queued when the
    Moysklad price differs from the converted price. *)
Definition shopify_price_task (pair : ShopifyProduct * MoyskladProduct)
    : list (M State unit) :=
  let '(shopify_product, moysklad_product) := pair in
  match sh_price shopify_product with
  | Some price =>
      let moysklad_price := price_to_moysklad_format price in
      if price_ne (ms_price moysklad_product) (Some moysklad_price) then
        [_update_moysklad_price (ms_id moysklad_product) moysklad_price]
      else []
  | None => []
  end.

Definition _sync_prices_shopify_to_moysklad
    (shopify_products : list ShopifyProduct)
    (moysklad_by_code : gmap string MoyskladProduct) (batch_size : nat)
    : M State unit :=
  logger INFO "Syncing prices from Shopify to Moysklad" [] ;;;
  let valid_products := shopify_price_pairs shopify_products moysklad_by_code in
  logger INFO "Found {} products to update prices"
    [ANat (length valid_products)] ;;;
  for_each (range_step (length valid_products) batch_size)
    (λ i _,
       let batch := slice valid_products i (i + batch_size) in
       logger INFO "Processing price batch {}/{}, size: {}"
         [ANat (i / batch_size + 1);
          ANat ((length valid_products + batch_size - 1) / batch_size);
          ANat (length batch)] ;;;
       run_price_batch (concat (map shopify_price_task batch)))
    tt.

Definition sync_product_prices (full_sync : bool) : M State unit :=
  try_except
    (start_time <- datetime_now ;;
     logger INFO "Starting price synchronization. Full sync: {}"
       [ABool full_sync] ;;;
     modified_since <- phase_modified_since "price" full_sync ;;
     moysklad_products <-
       moysklad_service_get_all_products false modified_since ;;
     shopify_products <-
       shopify_service_get_all_products false modified_since ;;
     let moysklad_by_code := index_by ms_code moysklad_products in
     let shopify_by_sku := index_by sh_sku shopify_products in
     (if String.eqb price_sync_direction "moysklad_to_shopify" then
        _sync_prices_moysklad_to_shopify moysklad_products shopify_by_sku
          BATCH_SIZE
      else if String.eqb price_sync_direction "shopify_to_moysklad" then
        _sync_prices_shopify_to_moysklad shopify_products moysklad_by_code
          BATCH_SIZE
      else
        logger WARNING "Invalid price sync direction: {}"
          [AStr price_sync_direction]) ;;;
     finish <- datetime_now ;;
     logger INFO "Price synchronization completed successfully in {}"
       [ATime (finish - start_time)%Z])
    (λ e,
       logger ERROR "Error during price synchronization: {}" [AExc e] ;;;
       raise e).

(** ** Complete and incremental runs *)

Definition run_complete_sync : M State unit :=
  try_except
    (logger INFO "Starting complete synchronization process" [] ;;;
     start_time <- datetime_now ;;
     sync_products true ;;;
     sync_product_inventory true ;;;
     sync_product_prices true ;;;
     finish <- datetime_now ;;
     logger INFO "Complete synchronization finished successfully in {}"
       [ATime (finish - start_time)%Z])
    (λ e,
       logger ERROR "Error during complete synchronization: {}" [AExc e] ;;;
       raise e).

Definition run_incremental_sync : M State unit :=
  try_except
    (logger INFO "Starting incremental synchronization process" [] ;;;
     start_time <- datetime_now ;;
     sync_products false ;;;
     sync_product_inventory false ;;;
     sync_product_prices false ;;;
     finish <- datetime_now ;;
     logger INFO "Incremental synchronization finished successfully in {}"
       [ATime (finish - start_time)%Z])
    (λ e,
       logger ERROR "Error during incremental synchronization: {}" [AExc e] ;;;
       raise e).

(** ** Vocabulary of the specifications *)

(** The values of the outcomes that are not exceptions, in order. *)
Fixpoint successes {T} (outcomes : list (Result T)) : list T :=
  match outcomes with
  | [] => []
  | Ok v :: rest => v :: successes rest
  | Raise _ :: rest => successes rest
  end.

(** The exceptions among the outcomes with their positions, counted from
    [i], in order. *)
Fixpoint failures_from {T} (i : nat) (outcomes : list (Result T))
    : list (nat * PyExc) :=
  match outcomes with
  | [] => []
  | Ok _ :: rest => failures_from (S i) rest
  | Raise e :: rest => (i, e) :: failures_from (S i) rest
  end.

Definition failures {T} (outcomes : list (Result T)) : list (nat * PyExc) :=
  failures_from 0 outcomes.

(** The record the scheduler logs for the failure of task [i]. *)
Definition task_failed {St} `{Logging LogArg St} (failure : nat * PyExc)
    (s : St) : St :=
  log_record ERROR "Task {} failed: {}" [ANat failure.1; AExc failure.2] s.

(** [Executes tasks s outcomes logged s']: starting in [s], every task of
    [tasks] is run exactly once, in order, with the outcomes [outcomes];
    between two tasks nothing happens to the state but the scheduler's
    failure records [logged], written in that order. *)
Inductive Executes {St T} `{Logging LogArg St}
    : list (M St T) → St → list (Result T) → list (nat * PyExc) → St → Prop :=
| Executes_done s :
    Executes [] s [] [] s
| Executes_task task tasks s outcome s1 outcomes logged s2 :
    task s = (outcome, s1) →
    Executes tasks s1 outcomes logged s2 →
    Executes (task :: tasks) s (outcome :: outcomes) logged s2
| Executes_log tasks s failure outcomes logged s2 :
    Executes tasks (task_failed failure s) outcomes logged s2 →
    Executes tasks s outcomes (failure :: logged) s2.

(** A state for observing the scheduler from outside: which tasks were
    run, and what was logged. *)
Record Observed : Type := {
  executed : list nat;
  logged : list (Level * string * list LogArg)
}.

#[global] Instance Observed_logging : Logging LogArg Observed :=
  λ lvl template args o,
    {| executed := executed o;
       logged := logged o ++ [(lvl, template, args)] |}.

(** A task that records its number when it runs and then ends with the
    given outcome. *)
Definition probe {T} (i : nat) (outcome : Result T) : M Observed T :=
  λ o, (outcome, {| executed := executed o ++ [i]; logged := logged o |}).

Fixpoint probes_from {T} (i : nat) (outcomes : list (Result T))
    : list (M Observed T) :=
  match outcomes with
  | [] => []
  | outcome :: rest => probe i outcome :: probes_from (S i) rest
  end.

(** One probe per outcome, numbered from 0 in submission order. *)
Definition probes {T} (outcomes : list (Result T)) : list (M Observed T) :=
  probes_from 0 outcomes.

Definition nothing_observed : Observed := {| executed := []; logged := [] |}.

Definition task_failed_record (failure : nat * PyExc)
    : Level * string * list LogArg :=
  (ERROR, "Task {} failed: {}", [ANat failure.1; AExc failure.2]).

(** The remote calls of a trace, in order. *)
Definition calls_of (tr : list Event) : list RemoteCall :=
  omap (λ ev, match ev with EvCall c => Some c | _ => None end) tr.

(** The sleeps of a trace, in order. *)
Definition sleeps_of (tr : list Event) : list nat :=
  omap (λ ev, match ev with EvSleep ms => Some ms | _ => None end) tr.

(** [Extends s evs s']: from [s] to [s'] the trace grew by the events
    [evs]. *)
Definition Extends (s : State) (evs : list Event) (s' : State) : Prop :=
  trace s' = (trace s ++ evs)%list.

(** [Footprint P s s']: from [s] to [s'] the watermark did not change, the
    trace grew, and every remote call it grew by satisfies [P]. *)
Definition Footprint (P : RemoteCall → Prop) (s s' : State) : Prop :=
  last_sync_time s' = last_sync_time s
  ∧ ∃ evs, Extends s evs s' ∧ Forall P (calls_of evs).

(** [Emits P m]: whatever the state and the outcome, running [m] leaves the
    watermark alone and sends only requests that satisfy [P]. *)
Definition Emits {A} (P : RemoteCall → Prop) (m : M State A) : Prop :=
  ∀ s, Footprint P s (m s).2.

(** [not_newer source target]: both objects have [updated_at], both hold a
    timestamp, and the source's is not later than the target's. *)
Definition not_newer (source target : Attribute Z) : bool :=
  match source, target with
  | Holds (Some x), Holds (Some y) => bool_decide (x ≤ y)%Z
  | _, _ => false
  end.

(** [incomparable source target]: both objects have [updated_at] and one
    of the two holds [None]. *)
Definition incomparable (source target : Attribute Z) : bool :=
  match source, target with
  | Holds (Some _), Holds (Some _) => false
  | Holds _, Holds _ => true
  | _, _ => false
  end.

(** The requests the Moysklad-to-Shopify direction may send for the
    products [moysklad_products] against the index [shopify_by_sku]: a
    create request for a product with an identity key and no counterpart,
    or an update request, under the counterpart's id, for a product with an
    identity key whose counterpart is not at least as recent and whose
    timestamps can be compared. *)
Definition moysklad_to_shopify_request
    (moysklad_products : list MoyskladProduct)
    (shopify_by_sku : gmap string ShopifyProduct) (c : RemoteCall) : Prop :=
  ∃ ms_product,
    ms_product ∈ moysklad_products
    ∧ truthy (ms_code ms_product) = true
    ∧ match dict_get shopify_by_sku (ms_code ms_product) with
      | None => c = ShCreateProduct (moysklad_to_shopify_product ms_product)
      | Some shopify_product =>
          c = ShUpdateProduct
                (sh_set_id (moysklad_to_shopify_product ms_product)
                   (sh_id shopify_product))
          ∧ not_newer (ms_updated_at ms_product)
              (sh_updated_at shopify_product) = false
          ∧ incomparable (ms_updated_at ms_product)
              (sh_updated_at shopify_product) = false
      end.

(** The same for the Shopify-to-Moysklad direction. *)
Definition shopify_to_moysklad_request
    (shopify_products : list ShopifyProduct)
    (moysklad_by_code : gmap string MoyskladProduct) (c : RemoteCall) : Prop :=
  ∃ shopify_product,
    shopify_product ∈ shopify_products
    ∧ truthy (sh_sku shopify_product) = true
    ∧ match dict_get moysklad_by_code (sh_sku shopify_product) with
      | None => c = MsCreateProduct (shopify_to_moysklad_product shopify_product)
      | Some moysklad_product =>
          c = MsUpdateProduct
                (ms_set_id (shopify_to_moysklad_product shopify_product)
                   (ms_id moysklad_product))
          ∧ not_newer (sh_updated_at shopify_product)
              (ms_updated_at moysklad_product) = false
          ∧ incomparable (sh_updated_at shopify_product)
              (ms_updated_at moysklad_product) = false
      end.

(** No constraint on the requests. *)
Definition any_request : RemoteCall → Prop := λ _, True.

(** [Marks t m]: run in any state, [m] either returns with the watermark
    set to [t], or raises with the watermark as it found it. *)
Definition Marks {A} (t : Z) (m : M State A) : Prop :=
  ∀ s, match m s with
       | (Ok _, s') => last_sync_time s' = Some t
       | (Raise _, s') => last_sync_time s' = last_sync_time s
       end.

(** [Returns m]: [m] never raises. *)
Definition Returns {St A} (m : M St A) : Prop :=
  ∀ s, ∃ a, (m s).1 = Ok a.

(** [Raises m]: [m] always raises. *)
Definition Raises {St A} (m : M St A) : Prop :=
  ∀ s, ∃ e, (m s).1 = Raise e.

(** [Sends m s cs]: run in [s], the computation [m] sends exactly the
    requests [cs], in that order. *)
Definition Sends {A} (m : M State A) (s : State) (cs : list RemoteCall) : Prop :=
  ∃ evs, Extends s evs (m s).2 ∧ calls_of evs = cs.

(** [OneRequest fn c answer]: run in any state, [fn] makes the request [c]
    once, makes no other request and does not sleep, and its outcome is
    the platform's answer; [answer] gives that answer as a function of the
    trace at the time of the request. *)
Definition OneRequest {A} (fn : M State A) (c : RemoteCall)
    (answer : list Event → Result A) : Prop :=
  ∀ s, ∃ before after,
    (fn s).1 = answer (trace s ++ before)%list
    ∧ Extends s (before ++ EvCall c :: after)%list (fn s).2
    ∧ calls_of before = [] ∧ calls_of after = []
    ∧ sleeps_of before = [] ∧ sleeps_of after = [].

(** [AtMostThreeAttempts task c]: run in any state, [task] makes the
    request [c] once, twice or three times and nothing else, sleeps two
    seconds between two requests and never after the last, and raises only
    after three requests, the exception being tenacity's [RetryError]. *)
Definition AtMostThreeAttempts {A} (task : M State A) (c : RemoteCall) : Prop :=
  ∀ s, ∃ evs k,
    Extends s evs (task s).2
    ∧ (1 ≤ k ≤ 3)%nat
    ∧ calls_of evs = replicate k c
    ∧ sleeps_of evs = replicate (k - 1) 2000%nat
    ∧ ∀ e, (task s).1 = Raise e → k = 3%nat ∧ ∃ last, e = RetryError last.

(** [ThirdAttemptIsLast task c answer]: started in a state from which the
    platform refuses the request the first two times it is made, [task]
    makes it a third time and then stops, whatever the third answer
    [third] is.  When the third answer is a value the task returns it;
    when it is an exception the task raises [RetryError] around it.
    Either way the request went out exactly three times, with a sleep of
    two seconds before the second and before the third.  The number of
    requests made since the start is what tells the three apart. *)
Definition ThirdAttemptIsLast {A} (task : M State A) (c : RemoteCall)
    (answer : list Event → Result A) : Prop :=
  ∀ s e1 e2 (third : Result A),
    (∀ evs, length (calls_of evs) = 0%nat →
            answer (trace s ++ evs)%list = Raise e1) →
    (∀ evs, length (calls_of evs) = 1%nat →
            answer (trace s ++ evs)%list = Raise e2) →
    (∀ evs, length (calls_of evs) = 2%nat →
            answer (trace s ++ evs)%list = third) →
    ∃ evs s',
      task s = (match third with
                | Ok v => Ok v
                | Raise e3 => Raise (RetryError e3)
                end, s')
      ∧ Extends s evs s'
      ∧ calls_of evs = [c; c; c]
      ∧ sleeps_of evs = [2000; 2000]%nat.

(** What the retry wrapper makes of a remote mutation. *)
Definition Retried {A} (task : M State A) (c : RemoteCall)
    (answer : list Event → Result A) : Prop :=
  AtMostThreeAttempts task c ∧ ThirdAttemptIsLast task c answer.

(** The requests that list a catalog. *)
Definition is_fetch (c : RemoteCall) : Prop :=
  match c with
  | MsGetAllProducts _ _ | ShGetAllProducts _ _ => True
  | _ => False
  end.

(** Both platforms answer every request for their catalog. *)
Definition catalogs_reachable : Prop :=
  (∀ tr with_stock since,
     is_ok (ms_get_all_products remote tr with_stock since) = true)
  ∧ (∀ tr with_inventory since,
       is_ok (sh_get_all_products remote tr with_inventory since) = true).

(** [Grows m]: running [m] only adds events to the trace. *)
Definition Grows {A} (m : M State A) : Prop :=
  ∀ s, ∃ evs, Extends s evs (m s).2.

(** [RaisesOnly E m]: an exception that comes out of [m] satisfies [E]. *)
Definition RaisesOnly {St A} (E : PyExc → Prop) (m : M St A) : Prop :=
  ∀ s e, (m s).1 = Raise e → E e.

(** The exceptions the platforms raise on a request for a catalog. *)
Definition fetch_error (e : PyExc) : Prop :=
  ∃ tr flag since,
    ms_get_all_products remote tr flag since = Raise e
    ∨ sh_get_all_products remote tr flag since = Raise e.

(** The message [sync_products] logs for an exception, by its class. *)
Definition sync_products_error_template (e : PyExc) : string :=
  match e with
  | MoyskladError _ | ShopifyError _ =>
      "Error during product synchronization: {}"
  | _ => "Unexpected error during product synchronization: {}"
  end.

(** The requests of the inventory phase: the Moysklad catalog with stock,
    the whole Shopify catalog with inventory, and inventory updates. *)
Definition inventory_phase_request (c : RemoteCall) : Prop :=
  match c with
  | MsGetAllProducts with_stock _ => with_stock = true
  | ShGetAllProducts with_inventory since =>
      with_inventory = true ∧ since = None
  | ShUpdateInventory _ _ _ => True
  | _ => False
  end.

(** The requests of the price phase: the two catalogs, and price updates
    on the receiving side of the configured direction only. *)
Definition price_phase_request (c : RemoteCall) : Prop :=
  match c with
  | MsGetAllProducts with_stock _ => with_stock = false
  | ShGetAllProducts with_inventory _ => with_inventory = false
  | ShUpdatePrice _ _ _ => price_sync_direction = "moysklad_to_shopify"
  | MsUpdatePrice _ _ => price_sync_direction = "shopify_to_moysklad"
  | _ => False
  end.

End ProductSync.

(** ** Concrete collaborators

    Prices are integers in the examples; a Shopify price is taken to
    Moysklad's format by counting it in hundredths. *)

Definition example_to_shopify (p : @MoyskladProduct Z) : @ShopifyProduct Z :=
  {| sh_id := ""; sh_sku := ms_code p; sh_price := ms_price p;
     sh_variant_id := ""; sh_inventory_item_id := "";
     sh_inventory_quantity := ms_stock p; sh_updated_at := ms_updated_at p |}.

Definition example_to_moysklad (p : @ShopifyProduct Z) : @MoyskladProduct Z :=
  {| ms_id := ""; ms_code := sh_sku p;
     ms_price := (λ x, x * 100)%Z <$> sh_price p;
     ms_stock := sh_inventory_quantity p; ms_updated_at := sh_updated_at p |}.

(** Two platforms that hold the given catalogs and accept every request. *)
Definition steady_remote (moysklad : list (@MoyskladProduct Z))
    (shopify : list (@ShopifyProduct Z)) : @Remote Z :=
  {| ms_get_all_products := λ _ _ _, Ok moysklad;
     sh_get_all_products := λ _ _ _, Ok shopify;
     sh_create_product := λ _ data, Ok data;
     sh_update_product := λ _ data, Ok data;
     ms_create_product := λ _ data, Ok data;
     ms_update_product := λ _ data, Ok data;
     sh_update_inventory := λ _ _ _ _, Ok tt;
     sh_update_price := λ _ _ _ _, Ok tt;
     ms_update_price := λ _ _ _, Ok tt |}.

(** As [steady_remote] with empty catalogs, but Shopify refuses a create
    request until two requests have been made. *)
Definition flaky_remote : @Remote Z :=
  {| ms_get_all_products := λ _ _ _, Ok [];
     sh_get_all_products := λ _ _ _, Ok [];
     sh_create_product := λ tr data,
       if (length (calls_of tr) <? 2)%nat
       then Raise (ShopifyError "503 Service Unavailable")
       else Ok data;
     sh_update_product := λ _ data, Ok data;
     ms_create_product := λ _ data, Ok data;
     ms_update_product := λ _ data, Ok data;
     sh_update_inventory := λ _ _ _ _, Ok tt;
     sh_update_price := λ _ _ _ _, Ok tt;
     ms_update_price := λ _ _ _, Ok tt |}.

(** Both platforms refuse to list their products. *)
Definition unreachable_remote : @Remote Z :=
  {| ms_get_all_products := λ _ _ _, Raise (MoyskladError "connection refused");
     sh_get_all_products := λ _ _ _, Raise (ShopifyError "connection refused");
     sh_create_product := λ _ data, Ok data;
     sh_update_product := λ _ data, Ok data;
     ms_create_product := λ _ data, Ok data;
     ms_update_product := λ _ data, Ok data;
     sh_update_inventory := λ _ _ _ _, Ok tt;
     sh_update_price := λ _ _ _ _, Ok tt;
     ms_update_price := λ _ _ _, Ok tt |}.

(** Two platforms that list the given catalogs and refuse every other
    request. *)
Definition rejecting_remote (moysklad : list (@MoyskladProduct Z))
    (shopify : list (@ShopifyProduct Z)) : @Remote Z :=
  {| ms_get_all_products := λ _ _ _, Ok moysklad;
     sh_get_all_products := λ _ _ _, Ok shopify;
     sh_create_product := λ _ _, Raise (ShopifyError "422");
     sh_update_product := λ _ _, Raise (ShopifyError "422");
     ms_create_product := λ _ _, Raise (MoyskladError "412");
     ms_update_product := λ _ _, Raise (MoyskladError "412");
     sh_update_inventory := λ _ _ _ _, Raise (ShopifyError "422");
     sh_update_price := λ _ _ _ _, Raise (ShopifyError "422");
     ms_update_price := λ _ _ _, Raise (MoyskladError "412") |}.

(** A clock that advances one second per reading. *)
Definition example_clock (n : nat) : Z :=
  (1700000000000000 + Z.of_nat n * 1000000)%Z.

Definition example_collaborators (r : @Remote Z) (direction : string)
    : @Collaborators Z :=
  {| moysklad_to_shopify_product := example_to_shopify;
     shopify_to_moysklad_product := example_to_moysklad;
     price_to_moysklad_format := λ x, (x * 100)%Z;
     remote := r;
     wall_clock := example_clock;
     price_sync_direction := direction |}.

Definition fresh_state : @State Z :=
  {| last_sync_time := None; trace := []; ticks := 0 |}.

Definition example_moysklad_product (code : string) (price : Z)
    (updated_at : Attribute Z) : @MoyskladProduct Z :=
  {| ms_id := "ms-" ++ code; ms_code := Some code; ms_price := Some price;
     ms_stock := Some 4%Z; ms_updated_at := updated_at |}.

Definition example_shopify_product (sku : string) (price : Z)
    (updated_at : Attribute Z) : @ShopifyProduct Z :=
  {| sh_id := "gid-" ++ sku; sh_sku := Some sku; sh_price := Some price;
     sh_variant_id := "variant-" ++ sku;
     sh_inventory_item_id := "item-" ++ sku;
     sh_inventory_quantity := Some 4%Z; sh_updated_at := updated_at |}.

(** The products of the end-to-end scenario: on Moysklad, A under key X1
    (newer) and B under key X2; on Shopify, C under key X1 (older). *)
Definition product_A : @MoyskladProduct Z :=
  example_moysklad_product "X1" 1999 (Holds (Some 20%Z)).
Definition product_B : @MoyskladProduct Z :=
  example_moysklad_product "X2" 500 (Holds (Some 20%Z)).
Definition product_C : @ShopifyProduct Z :=
  example_shopify_product "X1" 1999 (Holds (Some 10%Z)).

(** [product_A] with its price in Moysklad's format: 1999 counted in
    hundredths. *)
Definition product_A_hundredths : @MoyskladProduct Z :=
  example_moysklad_product "X1" 199900 (Holds (Some 20%Z)).

(** A Moysklad product that has no code. *)
Definition product_without_key : @MoyskladProduct Z :=
  {| ms_id := "ms-7"; ms_code := None; ms_price := Some 100%Z;
     ms_stock := None; ms_updated_at := Holds None |}.

(** [product_A] as it was before [product_C] was last touched. *)
Definition product_A_stale : @MoyskladProduct Z :=
  example_moysklad_product "X1" 1999 (Holds (Some 5%Z)).

(** [product_A] as Moysklad reports it when it has no modification date:
    the attribute is there and holds [None]. *)
Definition product_A_undated : @MoyskladProduct Z :=
  example_moysklad_product "X1" 1999 (Holds None).

(** [product_A] as an object that has no [updated_at] attribute at all. *)
Definition product_A_bare : @MoyskladProduct Z :=
  example_moysklad_product "X1" 1999 Missing.

(** [product_C] with another quantity on hand. *)
Definition product_C_low_stock : @ShopifyProduct Z :=
  {| sh_id := "gid-X1"; sh_sku := Some "X1"; sh_price := Some 1999%Z;
     sh_variant_id := "variant-X1"; sh_inventory_item_id := "item-X1";
     sh_inventory_quantity := Some 1%Z;
     sh_updated_at := Holds (Some 10%Z) |}.

(** A service that has completed a sync before. *)
Definition synced_state : @State Z :=
  {| last_sync_time := Some 1699990000000000%Z; trace := []; ticks := 0 |}.

(** * Properties *)

Local Open Scope list_scope.

(** ** Evaluation of the monad *)

Lemma bind_ok {St A B} (m : M St A) (k : A → M St B) s a s1 :
  m s = (Ok a, s1) → bind m k s = k a s1.
Proof. intros Hm. unfold bind. by rewrite Hm. Qed.

Lemma bind_raise {St A B} (m : M St A) (k : A → M St B) s e s1 :
  m s = (Raise e, s1) → bind m k s = (Raise e, s1).
Proof. intros Hm. unfold bind. by rewrite Hm. Qed.

(** ** The batch scheduler *)

Section SchedulerProperties.
Context {Price St : Type} `{!Logging (@LogArg Price) St} {T : Type}.
Implicit Types (tasks batch : list (M St T)) (outcomes : list (Result T)).

Lemma successes_app outcomes1 outcomes2 :
  successes (outcomes1 ++ outcomes2)
  = successes outcomes1 ++ successes outcomes2.
Proof.
  induction outcomes1 as [|[v|e] rest IH]; simpl; [done| |done].
  by rewrite IH.
Qed.

Lemma failures_from_app i outcomes1 outcomes2 :
  failures_from i (outcomes1 ++ outcomes2)
  = failures_from i outcomes1
    ++ failures_from (i + length outcomes1) outcomes2.
Proof.
  revert i. induction outcomes1 as [|[v|e] rest IH]; intros i; simpl.
  - by rewrite Nat.add_0_r.
  - rewrite IH. do 2 f_equal. lia.
  - rewrite IH. do 3 f_equal. lia.
Qed.

Lemma successes_failures_length i outcomes :
  (length (successes outcomes) + length (failures_from i outcomes)
   = length outcomes)%nat.
Proof.
  revert i. induction outcomes as [|[v|e] rest IH]; intros i; simpl.
  - done.
  - by rewrite IH.
  - rewrite Nat.add_succ_r. by rewrite IH.
Qed.

Lemma Executes_length tasks s outcomes failed s' :
  Executes tasks s outcomes failed s' → length outcomes = length tasks.
Proof. induction 1; simpl; congruence. Qed.

Lemma Executes_app tasks1 tasks2 s outcomes1 failed1 s1 outcomes2 failed2 s2 :
  Executes tasks1 s outcomes1 failed1 s1 →
  Executes tasks2 s1 outcomes2 failed2 s2 →
  Executes (tasks1 ++ tasks2) s (outcomes1 ++ outcomes2)
    (failed1 ++ failed2) s2.
Proof.
  induction 1 as [s|task tasks s o s1 os l s3 Htask _ IH|tasks s f os l s3 _ IH];
    intros Hrest; simpl.
  - done.
  - eapply Executes_task; [done|]. by apply IH.
  - apply Executes_log. by apply IH.
Qed.

(** Writing failure records runs no task. *)
Lemma Executes_logs (failed : list (nat * PyExc)) (s : St) :
  Executes (T:=T) [] s [] failed (foldl (λ s f, task_failed f s) s failed).
Proof.
  revert s. induction failed as [|f rest IH]; intros s; simpl.
  - constructor.
  - apply Executes_log. apply IH.
Qed.

(** [gather] runs every awaitable of the batch once, in order, and
    returns the list of their outcomes. *)
Lemma gather_return_exceptions_spec batch s :
  ∃ outcomes s',
    gather_return_exceptions batch s = (Ok outcomes, s')
    ∧ Executes batch s outcomes [] s'.
Proof.
  revert s. induction batch as [|task rest IH]; intros s; simpl.
  - eexists [], s. split; [done|constructor].
  - destruct (task s) as [o s1] eqn:Htask.
    destruct (IH s1) as (os & s2 & Hrun & Hex).
    exists (o :: os), s2. split.
    + by rewrite (bind_ok _ _ _ _ _ Hrun).
    + by eapply Executes_task.
Qed.

(** The result loop appends the successes and logs the failures. *)
Lemma process_batch_results_spec i j outcomes (results : list T) (s : St) :
  process_batch_results i j outcomes results s
  = (Ok (results ++ successes outcomes),
     foldl (λ s f, task_failed f s) s (failures_from (i + j) outcomes)).
Proof.
  revert j results s.
  induction outcomes as [|[v|e] rest IH]; intros j results s; simpl.
  - by rewrite app_nil_r.
  - rewrite IH. rewrite <- app_assoc. simpl.
    by replace (i + S j)%nat with (S (i + j)) by lia.
  - unfold bind, logger. rewrite IH.
    by replace (i + S j)%nat with (S (i + j)) by lia.
Qed.

(** The chunk loop, started at chunk [a] for [n] chunks. *)
Lemma chunk_loop_spec tasks n a (results : list T) (s : St) :
  ∃ outcomes s',
    for_each (map (λ k, k * MAX_CONCURRENT_TASKS)%nat (seq a n))
      (λ i results,
         let batch := slice tasks i (i + MAX_CONCURRENT_TASKS) in
         batch_results <- gather_return_exceptions batch ;;
         process_batch_results i 0 batch_results results)
      results s
    = (Ok (results ++ successes outcomes), s')
    ∧ Executes
        (take (n * MAX_CONCURRENT_TASKS)
           (drop (a * MAX_CONCURRENT_TASKS) tasks))
        s outcomes
        (failures_from (a * MAX_CONCURRENT_TASKS) outcomes) s'.
Proof.
  revert a results s. induction n as [|n IH]; intros a results s.
  - exists [], s. simpl. rewrite app_nil_r. split; [done|constructor].
  - cbn [seq map for_each].
    set (i := (a * MAX_CONCURRENT_TASKS)%nat).
    destruct (gather_return_exceptions_spec (slice tasks i (i + MAX_CONCURRENT_TASKS)) s)
      as (os1 & s1 & Hgather & Hex1).
    pose proof (process_batch_results_spec i 0 os1 results s1) as Hproc.
    rewrite Nat.add_0_r in Hproc.
    set (s2 := foldl (λ s f, task_failed f s) s1 (failures_from i os1)) in *.
    destruct (IH (S a) (results ++ successes os1) s2)
      as (os2 & s3 & Hloop & Hex2).
    exists (os1 ++ os2), s3. split.
    + erewrite bind_ok.
      * rewrite Hloop. by rewrite successes_app, app_assoc.
      * cbv zeta. erewrite bind_ok; [exact Hproc|exact Hgather].
    + assert (Hslice : slice tasks i (i + MAX_CONCURRENT_TASKS)
                       = take MAX_CONCURRENT_TASKS (drop i tasks)).
      { unfold slice. f_equal. lia. }
      rewrite Hslice in Hex1.
      assert (Htasks :
                take (S n * MAX_CONCURRENT_TASKS) (drop i tasks)
                = take MAX_CONCURRENT_TASKS (drop i tasks)
                  ++ take (n * MAX_CONCURRENT_TASKS)
                       (drop (S a * MAX_CONCURRENT_TASKS) tasks)).
      { replace (S n * MAX_CONCURRENT_TASKS)%nat
          with (MAX_CONCURRENT_TASKS + n * MAX_CONCURRENT_TASKS)%nat by lia.
        rewrite <- take_take_drop. rewrite drop_drop.
        do 3 f_equal. unfold i. lia. }
      rewrite Htasks.
      assert (Hlogs :
                failures_from i (os1 ++ os2)
                = failures_from i os1
                  ++ failures_from (S a * MAX_CONCURRENT_TASKS) os2).
      { rewrite failures_from_app. f_equal.
        pose proof (Executes_length _ _ _ _ _ Hex1) as Hlen1.
        pose proof (Executes_length _ _ _ _ _ Hex2) as Hlen2.
        rewrite length_take, length_drop in Hlen1.
        rewrite length_take, length_drop in Hlen2.
        destruct (decide (length os1 = MAX_CONCURRENT_TASKS)) as [->|Hshort].
        - f_equal. unfold i. lia.
        - assert (length os2 = 0)%nat as Hnil.
          { unfold i, MAX_CONCURRENT_TASKS in *. lia. }
          destruct os2; [done|discriminate]. }
      rewrite Hlogs.
      eapply Executes_app; [|exact Hex2].
      pose proof (Executes_app _ _ _ _ _ _ _ _ _ Hex1
                    (Executes_logs (failures_from i os1) s1)) as Hchunk.
      rewrite !app_nil_r in Hchunk. exact Hchunk.
Qed.

(** The scheduler never raises; it runs every task exactly once, in
    order; it returns the values of the tasks that did not fail, in
    order; and it logs one record for every task that failed. *)
Lemma execute_tasks_spec tasks (s : St) :
  ∃ outcomes s',
    _execute_tasks_with_limited_concurrency tasks s
    = (Ok (successes outcomes), s')
    ∧ Executes tasks s outcomes (failures outcomes) s'.
Proof.
  unfold _execute_tasks_with_limited_concurrency, range_step.
  destruct (chunk_loop_spec tasks
              ((length tasks + MAX_CONCURRENT_TASKS - 1) / MAX_CONCURRENT_TASKS)
              0 [] s) as (os & s' & Hrun & Hex).
  exists os, s'. split; [exact Hrun|].
  rewrite Nat.mul_0_l, drop_0 in Hex.
  rewrite take_ge in Hex; [exact Hex|].
  unfold MAX_CONCURRENT_TASKS.
  pose proof (Nat.div_mod_eq (length tasks + 5 - 1) 5) as Hdiv.
  pose proof (Nat.mod_upper_bound (length tasks + 5 - 1) 5). lia.
Qed.
End SchedulerProperties.

(** Running probes: the outcomes are the given ones, every probe leaves
    its number once, and the log grows by the failure records. *)
Lemma Executes_probes {Price T : Type} (i : nat) (given : list (Result T))
    (s s' : @Observed Price) outcomes failed :
  Executes (probes_from i given) s outcomes failed s' →
  outcomes = given
  ∧ executed s' = executed s ++ seq i (length given)
  ∧ logged s' = logged s ++ map task_failed_record failed.
Proof.
  intros Hex. remember (probes_from i given) as tasks eqn:Htasks.
  revert i given Htasks.
  induction Hex as [s|task tasks s o s1 os l s2 Htask _ IH|tasks s f os l s2 _ IH];
    intros i given Htasks.
  - destruct given; [|discriminate]. simpl. by rewrite !app_nil_r.
  - destruct given as [|g rest]; [discriminate|].
    simpl in Htasks. injection Htasks as -> ->.
    unfold probe in Htask. injection Htask as -> <-.
    destruct (IH (S i) rest eq_refl) as (-> & Hexec & Hlog).
    split; [done|]. split.
    + rewrite Hexec. simpl. by rewrite <- app_assoc.
    + by rewrite Hlog.
  - destruct (IH i given Htasks) as (-> & Hexec & Hlog).
    split; [done|]. split; [done|].
    rewrite Hlog. simpl. unfold task_failed_record.
    by rewrite <- app_assoc.
Qed.

(** C1 (as amended): on any list of N actions, whatever the pattern of
    failures among them, the scheduler runs every action exactly once and
    in submission order, returns without raising the results of the actions
    that succeeded (N minus the number of failed actions, not N), and
    writes one error record per failed action instead of returning it. *)
Theorem scheduler_runs_every_task_once {Price T : Type}
    (given : list (Result T)) :
  ∃ s' : @Observed Price,
    _execute_tasks_with_limited_concurrency (probes given) nothing_observed
    = (Ok (successes given), s')
    ∧ executed s' = seq 0 (length given)
    ∧ logged s' = map task_failed_record (failures given)
    ∧ (length (successes given) + length (failures given)
       = length given)%nat.
Proof.
  destruct (execute_tasks_spec (probes given) (@nothing_observed Price))
    as (os & s' & Hrun & Hex).
  apply Executes_probes in Hex as (-> & Hexec & Hlog).
  exists s'. split; [exact Hrun|]. split; [exact Hexec|]. split; [exact Hlog|].
  apply successes_failures_length.
Qed.

(** C1 (as stated) fails: of two actions of which the second raises, the
    scheduler returns one result, not two. *)
Lemma scheduler_drops_failed_outcomes :
  (_execute_tasks_with_limited_concurrency (Price:=Z)
     (probes [Ok 7%nat; Raise (OtherException "boom")]) nothing_observed).1
  = Ok [7%nat]
  ∧ ¬ ∃ results,
        (_execute_tasks_with_limited_concurrency (Price:=Z)
           (probes [Ok 7%nat; Raise (OtherException "boom")])
           nothing_observed).1
        = Ok results
        ∧ length results = 2%nat.
Proof.
  split; [reflexivity|].
  intros (results & Hrun & Hlen).
  vm_compute in Hrun. injection Hrun as <-. discriminate Hlen.
Qed.

(** C10: on every list of tasks and in every state the scheduler returns
    normally.  Every task has been run to an outcome; the outcomes that are
    exceptions are not raised but logged, one error record each with the
    position of the task; the returned list holds the values of the other
    outcomes in submission order. *)
Theorem scheduler_never_raises {Price St : Type}
    `{!Logging (@LogArg Price) St} {T : Type}
    (tasks : list (M St T)) (s : St) :
  ∃ outcomes s',
    _execute_tasks_with_limited_concurrency tasks s
    = (Ok (successes outcomes), s')
    ∧ length outcomes = length tasks
    ∧ Executes tasks s outcomes (failures outcomes) s'.
Proof.
  destruct (execute_tasks_spec tasks s) as (os & s' & Hrun & Hex).
  exists os, s'. split; [exact Hrun|]. split; [|exact Hex].
  by eapply Executes_length.
Qed.

(** ** The service *)

Section ServiceProperties.
Context {Price : Type} `{EqDecision Price} `{!@Collaborators Price}.
Implicit Types (s : @State Price) (evs : list (@Event Price)).
Implicit Types (P Q : @RemoteCall Price → Prop).
Implicit Types (ms_product moysklad_product : @MoyskladProduct Price).
Implicit Types (shopify_product : @ShopifyProduct Price).
Implicit Types (moysklad_products : list (@MoyskladProduct Price)).
Implicit Types (shopify_products : list (@ShopifyProduct Price)).

Lemma calls_of_app evs1 evs2 :
  calls_of (evs1 ++ evs2) = calls_of evs1 ++ calls_of evs2.
Proof. unfold calls_of. apply omap_app. Qed.

Lemma sleeps_of_app evs1 evs2 :
  sleeps_of (evs1 ++ evs2) = sleeps_of evs1 ++ sleeps_of evs2.
Proof. unfold sleeps_of. apply omap_app. Qed.

Lemma Extends_refl s : Extends s [] s.
Proof. unfold Extends. by rewrite app_nil_r. Qed.

Lemma Extends_trans s1 evs1 s2 evs2 s3 :
  Extends s1 evs1 s2 → Extends s2 evs2 s3 → Extends s1 (evs1 ++ evs2) s3.
Proof. unfold Extends. intros H1 H2. by rewrite H2, H1, app_assoc. Qed.

Lemma Extends_emit s ev : Extends s [ev] (emit ev s).
Proof. done. Qed.

(** *** The retry wrapper *)

(** What three attempts come to, for any wrapped function: the function
    is called again, after a sleep of two seconds, only when the attempt
    before raised, and never a fourth time; the exception of the third
    attempt comes out inside [RetryError]. *)
Lemma retry_3_2_unfold {A} (fn : M State A) s :
  retry 3 2 fn s =
  match fn s with
  | (Ok v, s1) => (Ok v, s1)
  | (Raise _, s1) =>
      match fn (emit (EvSleep 2000) s1) with
      | (Ok v, s2) => (Ok v, s2)
      | (Raise _, s2) =>
          match fn (emit (EvSleep 2000) s2) with
          | (Ok v, s3) => (Ok v, s3)
          | (Raise e3, s3) => (Raise (RetryError e3), s3)
          end
      end
  end.
Proof.
  unfold retry. simpl.
  destruct (fn s) as [[v|e1] s1]; [done|].
  unfold bind at 1, sleep at 1.
  destruct (fn (emit (EvSleep 2000) s1)) as [[v|e2] s2]; [done|].
  unfold bind at 1, sleep at 1.
  by destruct (fn (emit (EvSleep 2000) s2)) as [[v|e3] s3].
Qed.

(** *** Footprints *)

Lemma Footprint_refl P s : Footprint P s s.
Proof. split; [done|]. exists []. split; [apply Extends_refl|constructor]. Qed.

Lemma Footprint_trans P s1 s2 s3 :
  Footprint P s1 s2 → Footprint P s2 s3 → Footprint P s1 s3.
Proof.
  intros [Hw1 (evs1 & He1 & Hc1)] [Hw2 (evs2 & He2 & Hc2)].
  split; [congruence|]. exists (evs1 ++ evs2). split.
  - by eapply Extends_trans.
  - rewrite calls_of_app. by apply Forall_app.
Qed.

Lemma Footprint_weaken P Q s s' :
  (∀ c, P c → Q c) → Footprint P s s' → Footprint Q s s'.
Proof.
  intros HPQ [Hw (evs & He & Hc)]. split; [done|].
  exists evs. split; [done|]. by eapply Forall_impl.
Qed.

Lemma Footprint_log P s lvl template args :
  Footprint P s (emit (EvLog lvl template args) s).
Proof. split; [done|]. exists [EvLog lvl template args]. by split. Qed.

Lemma Footprint_sleep P s millis : Footprint P s (emit (EvSleep millis) s).
Proof. split; [done|]. exists [EvSleep millis]. by split. Qed.

Lemma Footprint_call P s c :
  P c → Footprint P s (emit (EvCall c) s).
Proof.
  intros HP. split; [done|]. exists [EvCall c]. split; [done|].
  by repeat constructor.
Qed.

Lemma Emits_weaken {A} P Q (m : M State A) :
  (∀ c, P c → Q c) → Emits P m → Emits Q m.
Proof. intros HPQ Hm s'. eapply Footprint_weaken; [exact HPQ|apply Hm]. Qed.

Lemma Emits_ret {A} P (a : A) : Emits P (ret a).
Proof. intros s. apply Footprint_refl. Qed.

Lemma Emits_raise {A} P e : Emits P (raise (A:=A) e).
Proof. intros s. apply Footprint_refl. Qed.

Lemma Emits_logger P lvl template args :
  Emits P (logger (St:=State) lvl template args).
Proof. intros s. apply Footprint_log. Qed.

Lemma Emits_sleep P millis : Emits P (sleep millis).
Proof. intros s. apply Footprint_sleep. Qed.

Lemma Emits_datetime_now P : Emits P datetime_now.
Proof. intros s. split; [done|]. exists []. split; [|constructor].
  unfold Extends. simpl. by rewrite app_nil_r. Qed.

Lemma Emits_get_last_sync_time P : Emits P get_last_sync_time.
Proof. intros s. apply Footprint_refl. Qed.

Lemma Emits_request {A} P c
    (answer : list Event → Result A) :
  P c → Emits P (request c answer).
Proof. intros HP s. by apply Footprint_call. Qed.

Lemma Emits_bind {A B} P (m : M State A) (k : A → M State B) :
  Emits P m → (∀ a, Emits P (k a)) → Emits P (bind m k).
Proof.
  intros Hm Hk s. unfold bind. specialize (Hm s).
  destruct (m s) as [[a|e] s1]; simpl in *; [|done].
  eapply Footprint_trans; [exact Hm|apply Hk].
Qed.

Lemma Emits_try_except {A} P (body : M State A) handler :
  Emits P body → (∀ e, Emits P (handler e)) → Emits P (try_except body handler).
Proof.
  intros Hm Hk s. unfold try_except. specialize (Hm s).
  destruct (body s) as [[a|e] s1]; simpl in *; [done|].
  eapply Footprint_trans; [exact Hm|apply Hk].
Qed.

Lemma Emits_for_each {X Acc} P (xs : list X) (body : X → Acc → M State Acc) acc :
  (∀ x a, Emits P (body x a)) → Emits P (for_each xs body acc).
Proof.
  intros Hbody. revert acc. induction xs as [|x rest IH]; intros acc; simpl.
  - apply Emits_ret.
  - apply Emits_bind; [apply Hbody|]. intros a. apply IH.
Qed.

Lemma Emits_retrying {A} P more wait (fn : M State A) :
  Emits P fn → Emits P (retrying more wait fn).
Proof.
  intros Hfn. induction more as [|more IH]; intros s; simpl;
    specialize (Hfn s); destruct (fn s) as [[v|e] s1]; simpl in *; try done.
  eapply Footprint_trans; [exact Hfn|].
  apply (Emits_bind P (sleep wait) (λ _, retrying more wait fn));
    [apply Emits_sleep|]. intros _. exact IH.
Qed.

Lemma Emits_retry {A} P attempts wait (fn : M State A) :
  Emits P fn → Emits P (retry attempts wait fn).
Proof. apply Emits_retrying. Qed.

Lemma Emits_gather2 {A B} P (a : M State A) (b : M State B) :
  Emits P a → Emits P b → Emits P (gather2 a b).
Proof.
  intros Ha Hb s. unfold gather2. specialize (Ha s).
  destruct (a s) as [ra s1]. specialize (Hb s1).
  destruct (b s1) as [rb s2]. simpl in *.
  by eapply Footprint_trans.
Qed.

Lemma Executes_Footprint {T} P (tasks : list (M State T)) s outcomes failed s' :
  Executes tasks s outcomes failed s' →
  Forall (Emits P) tasks → Footprint P s s'.
Proof.
  induction 1 as [s|task tasks s o s1 os l s2 Htask _ IH|tasks s f os l s2 _ IH];
    intros Hall.
  - apply Footprint_refl.
  - apply Forall_cons in Hall as [Htask' Hrest].
    specialize (Htask' s). rewrite Htask in Htask'.
    eapply Footprint_trans; [exact Htask'|by apply IH].
  - eapply Footprint_trans; [|by apply IH]. apply Footprint_log.
Qed.

Lemma Emits_execute_tasks {T} P (tasks : list (M State T)) :
  Forall (Emits P) tasks →
  Emits P (_execute_tasks_with_limited_concurrency tasks).
Proof.
  intros Hall s.
  destruct (execute_tasks_spec tasks s) as (os & s' & Hrun & Hex).
  rewrite Hrun. simpl. by eapply Executes_Footprint.
Qed.

(** The scheduler returns normally. *)
Lemma execute_tasks_ok {St T} `{!Logging (@LogArg Price) St}
    (tasks : list (M St T)) (s : St) :
  ∃ results, (_execute_tasks_with_limited_concurrency tasks s).1 = Ok results.
Proof.
  destruct (execute_tasks_spec tasks s) as (os & s' & Hrun & _).
  rewrite Hrun. by eexists.
Qed.

(** *** The requests of each task *)

(** The test of the update tasks either raises, when the two timestamps
    cannot be compared, or answers [not_newer]; it leaves the state as it
    is. *)
Lemma unchanged_since_run (source target : Attribute Z) s :
  (incomparable source target = false
   ∧ unchanged_since source target s = (Ok (not_newer source target), s))
  ∨ (incomparable source target = true
     ∧ not_newer source target = false
     ∧ ∃ a b, source = Holds a ∧ target = Holds b
              ∧ unchanged_since source target s = (Raise (TypeError_le a b), s)).
Proof.
  destruct source as [|[x|]], target as [|[y|]]; simpl;
    first [by left | right; repeat split; by eauto].
Qed.

(** Without the attribute on both objects nothing is compared. *)
Lemma unchanged_since_hasattr (source target : Attribute Z) s :
  hasattr source && hasattr target = false →
  unchanged_since source target s = (Ok false, s).
Proof. by destruct source, target. Qed.

Lemma Emits_unchanged_since {B} P (source target : Attribute Z)
    (k : bool → M State B) :
  (incomparable source target = false → Emits P (k (not_newer source target))) →
  Emits P (bind (unchanged_since source target) k).
Proof.
  intros Hk s. unfold bind.
  destruct (unchanged_since_run source target s)
    as [[Hc ->]|(_ & _ & a & b & _ & _ & ->)]; simpl.
  - by apply Hk.
  - apply Footprint_refl.
Qed.

Lemma unchanged_since_ok (source target : Attribute Z) :
  incomparable source target = false →
  ∀ s, unchanged_since source target s = (Ok (not_newer source target), s).
Proof.
  intros Hcmp s.
  destruct (unchanged_since_run source target s) as [[_ ->]|[Hc _]];
    [done|congruence].
Qed.

Lemma not_newer_comparable (source target : Attribute Z) :
  not_newer source target = true → incomparable source target = false.
Proof. by destruct source as [|[x|]], target as [|[y|]]. Qed.

Ltac emits_step :=
  lazymatch goal with
  | |- Emits _ (bind (unchanged_since _ _) _) => apply Emits_unchanged_since
  | |- Emits _ (ret _) => apply Emits_ret
  | |- Emits _ (raise _) => apply Emits_raise
  | |- Emits _ (logger _ _ _) => apply Emits_logger
  | |- Emits _ (sleep _) => apply Emits_sleep
  | |- Emits _ datetime_now => apply Emits_datetime_now
  | |- Emits _ get_last_sync_time => apply Emits_get_last_sync_time
  | |- Emits _ (request _ _) => apply Emits_request; done
  | |- Emits _ (retry _ _ _) => apply Emits_retry
  | |- Emits _ (try_except _ _) => apply Emits_try_except
  | |- Emits _ (bind _ _) => apply Emits_bind
  | |- Emits _ (gather2 _ _) => apply Emits_gather2
  | |- Emits _ (for_each _ _ _) => apply Emits_for_each
  | |- ∀ _, _ => intro
  end.

Ltac emits := cbv zeta; repeat emits_step.

Lemma Emits_create_shopify_product ms_product :
  Emits (λ c, c = ShCreateProduct (moysklad_to_shopify_product ms_product))
    (_create_shopify_product ms_product).
Proof.
  unfold _create_shopify_product, create_shopify_product_attempt,
    shopify_service_create_product. emits.
Qed.

Lemma Emits_update_shopify_product ms_product shopify_product :
  Emits (λ c, c = ShUpdateProduct
                    (sh_set_id (moysklad_to_shopify_product ms_product)
                       (sh_id shopify_product))
              ∧ not_newer (ms_updated_at ms_product)
                  (sh_updated_at shopify_product) = false
              ∧ incomparable (ms_updated_at ms_product)
                  (sh_updated_at shopify_product) = false)
    (_update_shopify_product ms_product shopify_product).
Proof.
  unfold _update_shopify_product, update_shopify_product_attempt,
    shopify_service_update_product. emits.
  destruct (not_newer _ _) eqn:Hnewer; emits.
Qed.

Lemma Emits_create_moysklad_product shopify_product :
  Emits (λ c, c = MsCreateProduct (shopify_to_moysklad_product shopify_product))
    (_create_moysklad_product shopify_product).
Proof.
  unfold _create_moysklad_product, create_moysklad_product_attempt,
    moysklad_service_create_product. emits.
Qed.

Lemma Emits_update_moysklad_product shopify_product moysklad_product :
  Emits (λ c, c = MsUpdateProduct
                    (ms_set_id (shopify_to_moysklad_product shopify_product)
                       (ms_id moysklad_product))
              ∧ not_newer (sh_updated_at shopify_product)
                  (ms_updated_at moysklad_product) = false
              ∧ incomparable (sh_updated_at shopify_product)
                  (ms_updated_at moysklad_product) = false)
    (_update_moysklad_product shopify_product moysklad_product).
Proof.
  unfold _update_moysklad_product, update_moysklad_product_attempt,
    moysklad_service_update_product. emits.
  destruct (not_newer _ _) eqn:Hnewer; emits.
Qed.

Lemma Emits_update_shopify_inventory ms_product shopify_product :
  Emits (λ c, c = ShUpdateInventory (sh_id shopify_product)
                    (sh_inventory_item_id shopify_product)
                    (match ms_stock ms_product with
                     | Some q => q
                     | None => 0%Z
                     end)
              ∧ sh_inventory_quantity shopify_product
                ≠ Some (match ms_stock ms_product with
                        | Some q => q
                        | None => 0%Z
                        end))
    (_update_shopify_inventory ms_product shopify_product).
Proof.
  unfold _update_shopify_inventory, update_shopify_inventory_attempt,
    shopify_service_update_inventory. cbv zeta.
  destruct (stock_unchanged _ _) eqn:Hsame; emits.
  apply Emits_request. split; [done|]. intros Heq. rewrite Heq in Hsame. simpl in Hsame.
  by rewrite bool_decide_eq_false in Hsame.
Qed.

Lemma Emits_update_shopify_price product_id variant_id price :
  Emits (λ c, c = ShUpdatePrice product_id variant_id price)
    (_update_shopify_price product_id variant_id price).
Proof.
  unfold _update_shopify_price, update_shopify_price_attempt,
    shopify_service_update_price. emits.
Qed.

Lemma Emits_update_moysklad_price product_id price :
  Emits (λ c, c = MsUpdatePrice product_id price)
    (_update_moysklad_price product_id price).
Proof.
  unfold _update_moysklad_price, update_moysklad_price_attempt,
    moysklad_service_update_price. emits.
Qed.

(** *** The requests of each direction *)

Lemma elem_of_slice {A} (l : list A) i j x : x ∈ slice l i j → x ∈ l.
Proof.
  unfold slice. intros Hx.
  apply (subseteq_drop i l), (subseteq_take (j - i) (drop i l)), Hx.
Qed.

Lemma elem_of_List_filter {A} (f : A → bool) (l : list A) x :
  x ∈ List.filter f l → x ∈ l ∧ f x = true.
Proof. rewrite !list_elem_of_In. apply filter_In. Qed.

Lemma Emits_sync_moysklad_to_shopify moysklad_products shopify_by_sku :
  Emits (moysklad_to_shopify_request moysklad_products shopify_by_sku)
    (_sync_moysklad_to_shopify moysklad_products shopify_by_sku).
Proof.
  unfold _sync_moysklad_to_shopify. emits.
  apply Emits_execute_tasks. unfold moysklad_batch_tasks.
  apply Forall_map, Forall_forall. intros ms_product Hin.
  apply elem_of_slice, elem_of_List_filter in Hin as [Hin Hkey].
  destruct (dict_get shopify_by_sku (ms_code ms_product))
    as [shopify_product|] eqn:Hget.
  - eapply Emits_weaken; [|apply Emits_update_shopify_product].
    intros c Hc. exists ms_product. by rewrite Hget.
  - eapply Emits_weaken; [|apply Emits_create_shopify_product].
    intros c Hc. exists ms_product. by rewrite Hget.
Qed.

Lemma Emits_sync_shopify_to_moysklad shopify_products moysklad_by_code :
  Emits (shopify_to_moysklad_request shopify_products moysklad_by_code)
    (_sync_shopify_to_moysklad shopify_products moysklad_by_code).
Proof.
  unfold _sync_shopify_to_moysklad. emits.
  apply Emits_execute_tasks. unfold shopify_batch_tasks.
  apply Forall_map, Forall_forall. intros shopify_product Hin.
  apply elem_of_slice, elem_of_List_filter in Hin as [Hin Hkey].
  destruct (dict_get moysklad_by_code (sh_sku shopify_product))
    as [moysklad_product|] eqn:Hget.
  - eapply Emits_weaken; [|apply Emits_update_moysklad_product].
    intros c Hc. exists shopify_product. by rewrite Hget.
  - eapply Emits_weaken; [|apply Emits_create_moysklad_product].
    intros c Hc. exists shopify_product. by rewrite Hget.
Qed.

(** *** The watermark *)

Lemma Emits_any {A} P (m : M State A) : Emits P m → Emits (@any_request Price) m.
Proof. apply Emits_weaken. by intros c _. Qed.

Lemma Emits_get_all_moysklad P with_stock modified_since :
  P (MsGetAllProducts with_stock modified_since) →
  Emits P (moysklad_service_get_all_products with_stock modified_since).
Proof. apply Emits_request. Qed.

Lemma Emits_get_all_shopify P with_inventory modified_since :
  P (ShGetAllProducts with_inventory modified_since) →
  Emits P (shopify_service_get_all_products with_inventory modified_since).
Proof. apply Emits_request. Qed.

Lemma Emits_products_modified_since P full_sync :
  Emits P (products_modified_since full_sync).
Proof.
  unfold products_modified_since. emits.
  destruct full_sync, a; simpl; emits.
Qed.

Lemma Emits_phase_modified_since P what full_sync :
  Emits P (phase_modified_since what full_sync).
Proof.
  unfold phase_modified_since. emits.
  destruct full_sync, a; simpl; emits.
Qed.

Lemma Marks_bind {A B} P t (m : M State A) (k : A → M State B) :
  Emits P m → (∀ a, Marks t (k a)) → Marks t (bind m k).
Proof.
  intros Hm Hk s. unfold bind. destruct (Hm s) as [Hw _].
  destruct (m s) as [[a|e] s1]; simpl in Hw; [|done].
  specialize (Hk a s1). destruct (k a s1) as [[b|e] s2]; congruence.
Qed.

Lemma Marks_assign {B} P t (k : unit → M State B) :
  (∀ u, Emits P (k u)) → (∀ u, Returns (k u)) →
  Marks t (bind (assign_last_sync_time t) k).
Proof.
  intros Hk Hret s. unfold bind, assign_last_sync_time.
  destruct (Hk tt (set_last_sync_time (Some t) s)) as [Hw _].
  destruct (Hret tt (set_last_sync_time (Some t) s)) as [b Hb].
  destruct (k tt (set_last_sync_time (Some t) s)) as [[b'|e] s2];
    simpl in *; [done|discriminate].
Qed.

Lemma Marks_try_except {A} P t (body : M State A) (handler : PyExc → M State A) :
  Marks t body →
  (∀ e, Emits P (handler e)) →
  (∀ e s, ∃ e', (handler e s).1 = Raise e') →
  Marks t (try_except body handler).
Proof.
  intros Hbody Hemits Hraises s. unfold try_except.
  specialize (Hbody s). destruct (body s) as [[a|e] s1]; [done|].
  destruct (Hemits e s1) as [Hw _]. destruct (Hraises e s1) as [e' He'].
  destruct (handler e s1) as [[a|e''] s2]; simpl in *; [discriminate|].
  congruence.
Qed.

(** Each direction of the products phase leaves the watermark alone. *)
Lemma Emits_both_directions moysklad_products shopify_products
    moysklad_by_code shopify_by_sku :
  Emits (@any_request Price)
    (gather2 (_sync_moysklad_to_shopify moysklad_products shopify_by_sku)
             (_sync_shopify_to_moysklad shopify_products moysklad_by_code)).
Proof.
  apply Emits_gather2.
  - eapply Emits_any, Emits_sync_moysklad_to_shopify.
  - eapply Emits_any, Emits_sync_shopify_to_moysklad.
Qed.

Ltac emits_any_step :=
  lazymatch goal with
  | |- Emits _ (moysklad_service_get_all_products _ _) =>
      apply Emits_get_all_moysklad; first [done | exact I]
  | |- Emits _ (shopify_service_get_all_products _ _) =>
      apply Emits_get_all_shopify; first [done | exact I]
  | |- Emits _ (products_modified_since _) =>
      apply Emits_products_modified_since
  | |- Emits _ (phase_modified_since _ _) =>
      apply Emits_phase_modified_since
  | |- Emits _ (gather2 (_sync_moysklad_to_shopify _ _) _) =>
      apply Emits_both_directions
  | |- Emits _ (if ?b then _ else _) => destruct b
  | _ => emits_step
  end.

Ltac emits_any := cbv zeta; repeat emits_any_step.

Ltac marks_step :=
  lazymatch goal with
  | |- Marks _ (bind (assign_last_sync_time _) _) =>
      apply (Marks_assign (@any_request Price))
  | |- Marks _ (bind _ _) => apply (Marks_bind (@any_request Price))
  | |- ∀ _, _ => intro
  | |- Emits _ _ => solve [emits_any]
  end.

Lemma Raises_bind_l {St A B} (m : M St A) (k : A → M St B) :
  Raises m → Raises (bind m k).
Proof.
  intros Hm st. destruct (Hm st) as [e He]. exists e. unfold bind.
  destruct (m st) as [[a|e'] st1]; simpl in *; [discriminate|congruence].
Qed.

Lemma Raises_bind_r {St A B} (m : M St A) (k : A → M St B) :
  (∀ a, Raises (k a)) → Raises (bind m k).
Proof.
  intros Hk st. unfold bind. destruct (m st) as [[a|e] st1].
  - apply Hk.
  - by exists e.
Qed.

Lemma Raises_try_except {St A} (body : M St A) (handler : PyExc → M St A) :
  Raises body → (∀ e, Raises (handler e)) → Raises (try_except body handler).
Proof.
  intros Hbody Hh st. unfold try_except. destruct (Hbody st) as [e He].
  destruct (body st) as [[a|e'] st1]; simpl in *; [discriminate|apply Hh].
Qed.

Lemma Raises_request {A} c (answer : list (@Event Price) → Result A) :
  (∀ tr, is_ok (answer tr) = false) → Raises (request c answer).
Proof.
  intros Hfail s. unfold request. simpl. specialize (Hfail (trace s)).
  destruct (answer (trace s)) as [a|e]; [discriminate|by exists e].
Qed.

(** The handlers of [sync_products] log and raise again. *)
Lemma sync_products_handler_raises (e : PyExc) s :
  ∃ e',
    (match e with
     | MoyskladError _ | ShopifyError _ =>
         logger ERROR "Error during product synchronization: {}" [AExc e] ;;;
         raise e
     | _ =>
         logger ERROR "Unexpected error during product synchronization: {}"
           [AExc e] ;;;
         raise e
     end s).1 = Raise (A:=unit) e'.
Proof. exists e. by destruct e. Qed.

(** C2: [sync_products] and the watermark.  When the call returns, the
    watermark is the reading of the clock taken at the start of the call;
    when the call raises, whatever the reason, the watermark is what it was
    before the call.  In particular the call raises, watermark untouched,
    when either platform fails to list its products in the initial fetch.
    And as long as the clock is not behind the watermark when the call
    starts, the watermark does not move backwards. *)
Theorem sync_products_watermark full_sync s :
  (match sync_products full_sync s with
   | (Ok _, s') => last_sync_time s' = Some (wall_clock (ticks s))
   | (Raise _, s') => last_sync_time s' = last_sync_time s
   end)
  ∧ ((∀ tr since, is_ok (ms_get_all_products remote tr false since) = false)
     ∨ (∀ tr since, is_ok (sh_get_all_products remote tr false since) = false) →
     ∃ e s', sync_products full_sync s = (Raise e, s')
             ∧ last_sync_time s' = last_sync_time s)
  ∧ (∀ t, last_sync_time s = Some t → (t ≤ wall_clock (ticks s))%Z →
     ∀ t', last_sync_time (sync_products full_sync s).2 = Some t' →
           (t ≤ t')%Z).
Proof.
  set (t0 := wall_clock (ticks s)).
  set (s0 := {| last_sync_time := last_sync_time s; trace := trace s;
                ticks := S (ticks s) |}).
  assert (Hmarks :
            match sync_products full_sync s with
            | (Ok _, s') => last_sync_time s' = Some t0
            | (Raise _, s') => last_sync_time s' = last_sync_time s
            end).
  { unfold sync_products.
    lazymatch goal with
    | |- context [try_except (bind datetime_now ?k) ?h] =>
        change (try_except (bind datetime_now k) h s)
          with (try_except (k t0) h s0);
        change (last_sync_time s) with (last_sync_time s0);
        apply (Marks_try_except (@any_request Price) t0 (k t0) h)
    end.
    - cbv beta. repeat marks_step.
      intros s1. eexists. reflexivity.
    - intros e. destruct e; emits_any.
    - intros e s1. apply sync_products_handler_raises. }
  split; [exact Hmarks|]. split.
  - intros Hdown.
    destruct (sync_products full_sync s) as [[u|e] s'] eqn:Hrun.
    + assert (Raises (sync_products full_sync)) as Hraises.
      { unfold sync_products. apply Raises_try_except.
        - do 3 (apply Raises_bind_r; intros ?).
          destruct Hdown as [Hdown|Hdown].
          + apply Raises_bind_l, Raises_request. intros tr. apply Hdown.
          + apply Raises_bind_r; intros ?.
            apply Raises_bind_l, Raises_request. intros tr. apply Hdown.
        - intros e s1. apply sync_products_handler_raises. }
      destruct (Hraises s) as [e He]. rewrite Hrun in He. discriminate.
    + by exists e, s'.
  - intros t Ht Hle t' Ht'.
    destruct (sync_products full_sync s) as [[u|e] s']; simpl in Ht'.
    + rewrite Hmarks in Ht'. by injection Ht' as <-.
    + rewrite Hmarks, Ht in Ht'. by injection Ht' as <-.
Qed.

(** *** How many requests a retried task sends *)

(** When every attempt sends exactly the request [c], the retried task
    sends it once, twice or three times. *)
Lemma retry_3_2_calls {A} (fn : M State A) (c : @RemoteCall Price) s :
  (∀ s1, ∃ evs, Extends s1 evs (fn s1).2 ∧ calls_of evs = [c]) →
  ∃ evs k, Extends s evs (retry 3 2 fn s).2
           ∧ calls_of evs = replicate k c
           ∧ (1 ≤ k ≤ 3)%nat.
Proof.
  intros Hfn. rewrite retry_3_2_unfold.
  destruct (Hfn s) as (evs1 & He1 & Hc1).
  destruct (fn s) as [[v|e1] s1]; simpl in He1.
  { exists evs1, 1%nat. simpl. split; [done|]. split; [done|lia]. }
  pose proof (Extends_emit s1 (EvSleep 2000)) as Hs1.
  destruct (Hfn (emit (EvSleep 2000) s1)) as (evs2 & He2 & Hc2).
  pose proof (Extends_trans _ _ _ _ _ (Extends_trans _ _ _ _ _ He1 Hs1) He2)
    as He12.
  destruct (fn (emit (EvSleep 2000) s1)) as [[v|e2] s2]; simpl in He2, He12.
  { eexists _, 2%nat. split; [exact He12|]. split; [|lia].
    rewrite !calls_of_app, Hc1, Hc2. reflexivity. }
  pose proof (Extends_emit s2 (EvSleep 2000)) as Hs2.
  destruct (Hfn (emit (EvSleep 2000) s2)) as (evs3 & He3 & Hc3).
  pose proof (Extends_trans _ _ _ _ _ (Extends_trans _ _ _ _ _ He12 Hs2) He3)
    as He123.
  destruct (fn (emit (EvSleep 2000) s2)) as [[v|e3] s3]; simpl in He3, He123.
  - eexists _, 3%nat. split; [exact He123|]. split; [|lia].
    rewrite !calls_of_app, Hc1, Hc2, Hc3. reflexivity.
  - eexists _, 3%nat. split; [exact He123|]. split; [|lia].
    rewrite !calls_of_app, Hc1, Hc2, Hc3. reflexivity.
Qed.

(** Closes [∃ evs, Extends s evs s' ∧ calls_of evs = cs] when [s'] is [s]
    with a known list of events emitted. *)
Ltac trace_grew :=
  eexists; split;
  [ unfold Extends; simpl; rewrite <- ?app_assoc; simpl; reflexivity
  | reflexivity ].

Lemma create_shopify_product_attempt_calls ms_product s :
  ∃ evs, Extends s evs (create_shopify_product_attempt ms_product s).2
         ∧ calls_of evs
           = [ShCreateProduct (moysklad_to_shopify_product ms_product)].
Proof.
  unfold create_shopify_product_attempt, bind, logger, try_except,
    shopify_service_create_product, request, raise, ret. simpl.
  destruct (sh_create_product _ _ _); trace_grew.
Qed.

Lemma create_moysklad_product_attempt_calls shopify_product s :
  ∃ evs, Extends s evs (create_moysklad_product_attempt shopify_product s).2
         ∧ calls_of evs
           = [MsCreateProduct (shopify_to_moysklad_product shopify_product)].
Proof.
  unfold create_moysklad_product_attempt, bind, logger, try_except,
    moysklad_service_create_product, request, raise, ret. simpl.
  destruct (ms_create_product _ _ _); trace_grew.
Qed.

Lemma update_shopify_product_attempt_calls ms_product shopify_product s :
  not_newer (ms_updated_at ms_product) (sh_updated_at shopify_product) = false →
  incomparable (ms_updated_at ms_product) (sh_updated_at shopify_product)
  = false →
  ∃ evs,
    Extends s evs (update_shopify_product_attempt ms_product shopify_product s).2
    ∧ calls_of evs
      = [ShUpdateProduct (sh_set_id (moysklad_to_shopify_product ms_product)
                            (sh_id shopify_product))].
Proof.
  intros Hnewer Hcmp.
  unfold update_shopify_product_attempt, bind, logger, try_except,
    shopify_service_update_product, request, raise, ret.
  rewrite (unchanged_since_ok _ _ Hcmp), Hnewer. simpl.
  destruct (sh_update_product _ _ _); trace_grew.
Qed.

Lemma update_moysklad_product_attempt_calls shopify_product moysklad_product s :
  not_newer (sh_updated_at shopify_product) (ms_updated_at moysklad_product)
  = false →
  incomparable (sh_updated_at shopify_product) (ms_updated_at moysklad_product)
  = false →
  ∃ evs,
    Extends s evs
      (update_moysklad_product_attempt shopify_product moysklad_product s).2
    ∧ calls_of evs
      = [MsUpdateProduct (ms_set_id (shopify_to_moysklad_product shopify_product)
                            (ms_id moysklad_product))].
Proof.
  intros Hnewer Hcmp.
  unfold update_moysklad_product_attempt, bind, logger, try_except,
    moysklad_service_update_product, request, raise, ret.
  rewrite (unchanged_since_ok _ _ Hcmp), Hnewer. simpl.
  destruct (ms_update_product _ _ _); trace_grew.
Qed.

(** A skipped update returns the counterpart as it is and sends nothing. *)
Lemma update_shopify_product_skip ms_product shopify_product s :
  not_newer (ms_updated_at ms_product) (sh_updated_at shopify_product) = true →
  (_update_shopify_product ms_product shopify_product s).1 = Ok shopify_product
  ∧ ∃ evs,
      Extends s evs (_update_shopify_product ms_product shopify_product s).2
      ∧ calls_of evs = [].
Proof.
  intros Hnewer. unfold _update_shopify_product. rewrite retry_3_2_unfold.
  unfold update_shopify_product_attempt, bind, logger, try_except, ret.
  rewrite (unchanged_since_ok _ _ (not_newer_comparable _ _ Hnewer)), Hnewer.
  simpl. split; [done|]. trace_grew.
Qed.

Lemma update_moysklad_product_skip shopify_product moysklad_product s :
  not_newer (sh_updated_at shopify_product) (ms_updated_at moysklad_product)
  = true →
  (_update_moysklad_product shopify_product moysklad_product s).1
  = Ok moysklad_product
  ∧ ∃ evs,
      Extends s evs (_update_moysklad_product shopify_product moysklad_product s).2
      ∧ calls_of evs = [].
Proof.
  intros Hnewer. unfold _update_moysklad_product. rewrite retry_3_2_unfold.
  unfold update_moysklad_product_attempt, bind, logger, try_except, ret.
  rewrite (unchanged_since_ok _ _ (not_newer_comparable _ _ Hnewer)), Hnewer.
  simpl. split; [done|]. trace_grew.
Qed.

(** [not_newer] holds exactly when both timestamps are there and the
    source's is not strictly later than the target's. *)
Lemma not_newer_spec (source target : Attribute Z) :
  not_newer source target = true
  ↔ ∃ t_source t_target,
      source = Holds (Some t_source) ∧ target = Holds (Some t_target)
      ∧ (t_source ≤ t_target)%Z.
Proof.
  unfold not_newer. destruct source as [|[a|]], target as [|[b|]]; split;
    try discriminate; try (intros (? & ? & ? & ? & ?); discriminate).
  - intros Hle%bool_decide_eq_true. by exists a, b.
  - intros (a' & b' & [= ->] & [= ->] & Hle). by apply bool_decide_eq_true.
Qed.

(** *** One record through a direction *)

(** The scheduler on a single task: the task runs once, and its failure
    is logged under number 0. *)
Lemma execute_single_task {T} (task : M State T) s :
  _execute_tasks_with_limited_concurrency [task] s
  = match task s with
    | (Ok v, s1) => (Ok [v], s1)
    | (Raise e, s1) => (Ok [], task_failed (0%nat, e) s1)
    end.
Proof.
  unfold _execute_tasks_with_limited_concurrency, range_step, slice. simpl.
  unfold bind. by destruct (task s) as [[v|e] s1].
Qed.

(** A direction given one record that has a key: three log records, the
    record's task under the scheduler, and the pause after the batch. *)
Lemma sync_moysklad_to_shopify_single ms_product
    (shopify_by_sku : gmap string ShopifyProduct) s :
  truthy (ms_code ms_product) = true →
  ∃ before s0,
    Extends s before s0 ∧ calls_of before = [] ∧ sleeps_of before = []
    ∧ _sync_moysklad_to_shopify [ms_product] shopify_by_sku s
      = (Ok tt,
         emit (EvSleep 500)
           (_execute_tasks_with_limited_concurrency
              (moysklad_batch_tasks shopify_by_sku [ms_product]) s0).2).
Proof.
  intros Hkey. unfold _sync_moysklad_to_shopify. simpl List.filter.
  rewrite Hkey. unfold range_step, slice, BATCH_SIZE. simpl.
  unfold bind at 1 2 3 4. unfold logger at 1 2 3. simpl.
  lazymatch goal with
  | |- context [bind (_execute_tasks_with_limited_concurrency ?tasks) _ ?st] =>
      destruct (execute_tasks_ok tasks st) as [results Hok];
      eexists _, st
  end.
  split; [unfold Extends; simpl; rewrite <- !app_assoc; reflexivity|].
  split; [reflexivity|]. split; [reflexivity|].
  unfold bind, sleep.
  destruct (_execute_tasks_with_limited_concurrency _ _) as [r s1].
  simpl in Hok. by subst r.
Qed.

Lemma sync_shopify_to_moysklad_single shopify_product
    (moysklad_by_code : gmap string MoyskladProduct) s :
  truthy (sh_sku shopify_product) = true →
  ∃ before s0,
    Extends s before s0 ∧ calls_of before = [] ∧ sleeps_of before = []
    ∧ _sync_shopify_to_moysklad [shopify_product] moysklad_by_code s
      = (Ok tt,
         emit (EvSleep 500)
           (_execute_tasks_with_limited_concurrency
              (shopify_batch_tasks moysklad_by_code [shopify_product]) s0).2).
Proof.
  intros Hkey. unfold _sync_shopify_to_moysklad. simpl List.filter.
  rewrite Hkey. unfold range_step, slice, BATCH_SIZE. simpl.
  unfold bind at 1 2 3 4. unfold logger at 1 2 3. simpl.
  lazymatch goal with
  | |- context [bind (_execute_tasks_with_limited_concurrency ?tasks) _ ?st] =>
      destruct (execute_tasks_ok tasks st) as [results Hok];
      eexists _, st
  end.
  split; [unfold Extends; simpl; rewrite <- !app_assoc; reflexivity|].
  split; [reflexivity|]. split; [reflexivity|].
  unfold bind, sleep.
  destruct (_execute_tasks_with_limited_concurrency _ _) as [r s1].
  simpl in Hok. by subst r.
Qed.

(** *** Timestamps that cannot be compared *)

Lemma datetime_le_None (a b : option Z) s :
  a = None ∨ b = None →
  datetime_le a b s = (Raise (TypeError_le a b), s).
Proof. intros [-> | ->]; [done|by destruct a]. Qed.

(** An update task for two records that both have [updated_at], one of
    them holding [None]: each attempt raises the [TypeError] of the
    comparison before any request is made, and after the third attempt the
    task raises [RetryError]. *)
Lemma update_shopify_product_raises_TypeError ms_product shopify_product a b s :
  ms_updated_at ms_product = Holds a →
  sh_updated_at shopify_product = Holds b →
  a = None ∨ b = None →
  ∃ evs s',
    _update_shopify_product ms_product shopify_product s
    = (Raise (RetryError (TypeError_le a b)), s')
    ∧ Extends s evs s'
    ∧ calls_of evs = []
    ∧ sleeps_of evs = [2000; 2000]%nat.
Proof.
  intros Ha Hb Hnone. unfold _update_shopify_product.
  rewrite retry_3_2_unfold.
  unfold update_shopify_product_attempt, bind, logger, try_except, raise.
  rewrite Ha, Hb. unfold unchanged_since.
  rewrite !(datetime_le_None a b _ Hnone). simpl.
  eexists _, _. split; [reflexivity|].
  split; [unfold Extends; simpl; rewrite <- !app_assoc; reflexivity|].
  split; reflexivity.
Qed.

Lemma update_moysklad_product_raises_TypeError shopify_product moysklad_product
    a b s :
  sh_updated_at shopify_product = Holds a →
  ms_updated_at moysklad_product = Holds b →
  a = None ∨ b = None →
  ∃ evs s',
    _update_moysklad_product shopify_product moysklad_product s
    = (Raise (RetryError (TypeError_le a b)), s')
    ∧ Extends s evs s'
    ∧ calls_of evs = []
    ∧ sleeps_of evs = [2000; 2000]%nat.
Proof.
  intros Ha Hb Hnone. unfold _update_moysklad_product.
  rewrite retry_3_2_unfold.
  unfold update_moysklad_product_attempt, bind, logger, try_except, raise.
  rewrite Ha, Hb. unfold unchanged_since.
  rewrite !(datetime_le_None a b _ Hnone). simpl.
  eexists _, _. split; [reflexivity|].
  split; [unfold Extends; simpl; rewrite <- !app_assoc; reflexivity|].
  split; reflexivity.
Qed.

(** What a direction sends for its one record is what the record's task
    sends. *)
Lemma sync_moysklad_to_shopify_single_sends ms_product
    (shopify_by_sku : gmap string ShopifyProduct) s :
  truthy (ms_code ms_product) = true →
  ∃ s0, ∀ cs,
    Sends (match dict_get shopify_by_sku (ms_code ms_product) with
           | Some shopify_product =>
               _update_shopify_product ms_product shopify_product
           | None => _create_shopify_product ms_product
           end) s0 cs →
    Sends (_sync_moysklad_to_shopify [ms_product] shopify_by_sku) s cs.
Proof.
  intros Hkey.
  destruct (sync_moysklad_to_shopify_single ms_product shopify_by_sku s Hkey)
    as (before & s0 & He0 & Hc0 & Hz0 & Hrun).
  exists s0. intros cs (evs & He & Hc). unfold Sends. rewrite Hrun.
  simpl moysklad_batch_tasks. rewrite execute_single_task.
  destruct ((match dict_get shopify_by_sku (ms_code ms_product) with
             | Some shopify_product =>
                 _update_shopify_product ms_product shopify_product
             | None => _create_shopify_product ms_product
             end) s0) as [[v|e] s1]; simpl in He.
  - exists (before ++ evs ++ [EvSleep 500]). unfold Extends in *. simpl.
    rewrite He, He0, !calls_of_app, Hc0, Hc, <- !app_assoc.
    split; [done|]. simpl. by rewrite app_nil_r.
  - exists (before ++ evs
            ++ [EvLog ERROR "Task {} failed: {}" [ANat 0; AExc e];
                EvSleep 500]).
    unfold Extends in *. simpl.
    rewrite He, He0, !calls_of_app, Hc0, Hc, <- !app_assoc.
    split; [done|]. simpl. by rewrite app_nil_r.
Qed.

Lemma sync_shopify_to_moysklad_single_sends shopify_product
    (moysklad_by_code : gmap string MoyskladProduct) s :
  truthy (sh_sku shopify_product) = true →
  ∃ s0, ∀ cs,
    Sends (match dict_get moysklad_by_code (sh_sku shopify_product) with
           | Some moysklad_product =>
               _update_moysklad_product shopify_product moysklad_product
           | None => _create_moysklad_product shopify_product
           end) s0 cs →
    Sends (_sync_shopify_to_moysklad [shopify_product] moysklad_by_code) s cs.
Proof.
  intros Hkey.
  destruct (sync_shopify_to_moysklad_single shopify_product moysklad_by_code
              s Hkey) as (before & s0 & He0 & Hc0 & Hz0 & Hrun).
  exists s0. intros cs (evs & He & Hc). unfold Sends. rewrite Hrun.
  simpl shopify_batch_tasks. rewrite execute_single_task.
  destruct ((match dict_get moysklad_by_code (sh_sku shopify_product) with
             | Some moysklad_product =>
                 _update_moysklad_product shopify_product moysklad_product
             | None => _create_moysklad_product shopify_product
             end) s0) as [[v|e] s1]; simpl in He.
  - exists (before ++ evs ++ [EvSleep 500]). unfold Extends in *. simpl.
    rewrite He, He0, !calls_of_app, Hc0, Hc, <- !app_assoc.
    split; [done|]. simpl. by rewrite app_nil_r.
  - exists (before ++ evs
            ++ [EvLog ERROR "Task {} failed: {}" [ANat 0; AExc e];
                EvSleep 500]).
    unfold Extends in *. simpl.
    rewrite He, He0, !calls_of_app, Hc0, Hc, <- !app_assoc.
    split; [done|]. simpl. by rewrite app_nil_r.
Qed.

(** One record that has an identity key, run through a direction on its
    own.  The direction sends
    - create requests for the translated record, one to three of them,
      when the target index has no entry under the record's key;
    - nothing, when the index has an entry and both records hold a
      timestamp in [updated_at], the source's not later than the target's;
    - update requests for the translated record under the counterpart's
      id, one to three of them, when both hold a timestamp and the
      source's is later, and when either record lacks the attribute;
    - nothing, when both records have the attribute and one of the two
      holds [None]. *)
Lemma reconciliation_of_one_record :
  (∀ ms_product (shopify_by_sku : gmap string ShopifyProduct) s,
     truthy (ms_code ms_product) = true →
     let run := _sync_moysklad_to_shopify [ms_product] shopify_by_sku in
     match dict_get shopify_by_sku (ms_code ms_product) with
     | None =>
         ∃ k, (1 ≤ k ≤ 3)%nat
              ∧ Sends run s
                  (replicate k
                     (ShCreateProduct (moysklad_to_shopify_product ms_product)))
     | Some shopify_product =>
         let update :=
           ShUpdateProduct (sh_set_id (moysklad_to_shopify_product ms_product)
                              (sh_id shopify_product)) in
         match ms_updated_at ms_product, sh_updated_at shopify_product with
         | Holds (Some t_source), Holds (Some t_target) =>
             if bool_decide (t_source ≤ t_target)%Z
             then Sends run s []
             else ∃ k, (1 ≤ k ≤ 3)%nat ∧ Sends run s (replicate k update)
         | Holds _, Holds _ => Sends run s []
         | _, _ => ∃ k, (1 ≤ k ≤ 3)%nat ∧ Sends run s (replicate k update)
         end
     end)
  ∧ (∀ shopify_product (moysklad_by_code : gmap string MoyskladProduct) s,
       truthy (sh_sku shopify_product) = true →
       let run := _sync_shopify_to_moysklad [shopify_product] moysklad_by_code in
       match dict_get moysklad_by_code (sh_sku shopify_product) with
       | None =>
           ∃ k, (1 ≤ k ≤ 3)%nat
                ∧ Sends run s
                    (replicate k
                       (MsCreateProduct
                          (shopify_to_moysklad_product shopify_product)))
       | Some moysklad_product =>
           let update :=
             MsUpdateProduct
               (ms_set_id (shopify_to_moysklad_product shopify_product)
                  (ms_id moysklad_product)) in
           match sh_updated_at shopify_product, ms_updated_at moysklad_product with
           | Holds (Some t_source), Holds (Some t_target) =>
               if bool_decide (t_source ≤ t_target)%Z
               then Sends run s []
               else ∃ k, (1 ≤ k ≤ 3)%nat ∧ Sends run s (replicate k update)
           | Holds _, Holds _ => Sends run s []
           | _, _ => ∃ k, (1 ≤ k ≤ 3)%nat ∧ Sends run s (replicate k update)
           end
       end).
Proof.
  split.
  - intros ms index s Hkey run.
    destruct (sync_moysklad_to_shopify_single_sends ms index s Hkey)
      as [s0 Hsends].
    destruct (dict_get index (ms_code ms)) as [sp|]; cbv zeta.
    + assert (not_newer (ms_updated_at ms) (sh_updated_at sp) = false →
              incomparable (ms_updated_at ms) (sh_updated_at sp) = false →
              ∃ k, (1 ≤ k ≤ 3)%nat
                   ∧ Sends run s
                       (replicate k
                          (ShUpdateProduct
                             (sh_set_id (moysklad_to_shopify_product ms)
                                (sh_id sp))))) as Hupdate.
      { intros Hnewer Hcmp.
        destruct (retry_3_2_calls (update_shopify_product_attempt ms sp) _ s0
                    (λ s1, update_shopify_product_attempt_calls ms sp s1
                             Hnewer Hcmp)) as (evs & k & He & Hc & Hk).
        exists k. split; [done|]. apply Hsends. by exists evs. }
      assert (not_newer (ms_updated_at ms) (sh_updated_at sp) = true →
              Sends run s []) as Hskip.
      { intros Hnewer. apply Hsends.
        by apply update_shopify_product_skip. }
      assert (∀ a b, ms_updated_at ms = Holds a → sh_updated_at sp = Holds b →
                     a = None ∨ b = None → Sends run s []) as Hfail.
      { intros a b Ha Hb Hnone. apply Hsends.
        destruct (update_shopify_product_raises_TypeError ms sp a b s0
                    Ha Hb Hnone) as (evs & s1 & Hrun & He & Hc & _).
        exists evs. by rewrite Hrun. }
      destruct (ms_updated_at ms) as [|[x|]], (sh_updated_at sp) as [|[y|]];
        try (by apply Hupdate); try (by eapply Hfail; eauto).
      simpl in Hupdate, Hskip.
      destruct (bool_decide (x ≤ y)%Z); [by apply Hskip|by apply Hupdate].
    + destruct (retry_3_2_calls (create_shopify_product_attempt ms) _ s0
                  (create_shopify_product_attempt_calls ms))
        as (evs & k & He & Hc & Hk).
      exists k. split; [done|]. apply Hsends. by exists evs.
  - intros sh index s Hkey run.
    destruct (sync_shopify_to_moysklad_single_sends sh index s Hkey)
      as [s0 Hsends].
    destruct (dict_get index (sh_sku sh)) as [mp|]; cbv zeta.
    + assert (not_newer (sh_updated_at sh) (ms_updated_at mp) = false →
              incomparable (sh_updated_at sh) (ms_updated_at mp) = false →
              ∃ k, (1 ≤ k ≤ 3)%nat
                   ∧ Sends run s
                       (replicate k
                          (MsUpdateProduct
                             (ms_set_id (shopify_to_moysklad_product sh)
                                (ms_id mp))))) as Hupdate.
      { intros Hnewer Hcmp.
        destruct (retry_3_2_calls (update_moysklad_product_attempt sh mp) _ s0
                    (λ s1, update_moysklad_product_attempt_calls sh mp s1
                             Hnewer Hcmp)) as (evs & k & He & Hc & Hk).
        exists k. split; [done|]. apply Hsends. by exists evs. }
      assert (not_newer (sh_updated_at sh) (ms_updated_at mp) = true →
              Sends run s []) as Hskip.
      { intros Hnewer. apply Hsends.
        by apply update_moysklad_product_skip. }
      assert (∀ a b, sh_updated_at sh = Holds a → ms_updated_at mp = Holds b →
                     a = None ∨ b = None → Sends run s []) as Hfail.
      { intros a b Ha Hb Hnone. apply Hsends.
        destruct (update_moysklad_product_raises_TypeError sh mp a b s0
                    Ha Hb Hnone) as (evs & s1 & Hrun & He & Hc & _).
        exists evs. by rewrite Hrun. }
      destruct (sh_updated_at sh) as [|[x|]], (ms_updated_at mp) as [|[y|]];
        try (by apply Hupdate); try (by eapply Hfail; eauto).
      simpl in Hupdate, Hskip.
      destruct (bool_decide (x ≤ y)%Z); [by apply Hskip|by apply Hupdate].
    + destruct (retry_3_2_calls (create_moysklad_product_attempt sh) _ s0
                  (create_moysklad_product_attempt_calls sh))
        as (evs & k & He & Hc & Hk).
      exists k. split; [done|]. apply Hsends. by exists evs.
Qed.

(** C4: a record that has an identity key and a counterpart under that
    key, where both records have the attribute [updated_at] and one of the
    two holds [None].  The claim asks for an update here; the direction
    sends no request at all.  Each of the three attempts of the update task
    ends in the [TypeError] of the comparison, the scheduler logs the
    failure of task 0 with tenacity's [RetryError] around that error, and
    the direction returns normally after the two sleeps between the
    attempts and the pause after the batch. *)
Theorem undated_record_is_not_updated :
  (∀ ms_product shopify_product (shopify_by_sku : gmap string ShopifyProduct)
     a b s,
     truthy (ms_code ms_product) = true →
     dict_get shopify_by_sku (ms_code ms_product) = Some shopify_product →
     ms_updated_at ms_product = Holds a →
     sh_updated_at shopify_product = Holds b →
     a = None ∨ b = None →
     ∃ evs s',
       _sync_moysklad_to_shopify [ms_product] shopify_by_sku s = (Ok tt, s')
       ∧ Extends s evs s'
       ∧ calls_of evs = []
       ∧ sleeps_of evs = [2000; 2000; 500]%nat
       ∧ EvLog ERROR "Task {} failed: {}"
           [ANat 0; AExc (RetryError (TypeError_le a b))] ∈ evs)
  ∧ (∀ shopify_product moysklad_product
       (moysklad_by_code : gmap string MoyskladProduct) a b s,
       truthy (sh_sku shopify_product) = true →
       dict_get moysklad_by_code (sh_sku shopify_product)
       = Some moysklad_product →
       sh_updated_at shopify_product = Holds a →
       ms_updated_at moysklad_product = Holds b →
       a = None ∨ b = None →
       ∃ evs s',
         _sync_shopify_to_moysklad [shopify_product] moysklad_by_code s
         = (Ok tt, s')
         ∧ Extends s evs s'
         ∧ calls_of evs = []
         ∧ sleeps_of evs = [2000; 2000; 500]%nat
         ∧ EvLog ERROR "Task {} failed: {}"
             [ANat 0; AExc (RetryError (TypeError_le a b))] ∈ evs).
Proof.
  split.
  - intros ms sp index a b s Hkey Hget Ha Hb Hnone.
    destruct (sync_moysklad_to_shopify_single ms index s Hkey)
      as (before & s0 & He0 & Hc0 & Hz0 & ->).
    simpl moysklad_batch_tasks. rewrite Hget, execute_single_task.
    destruct (update_shopify_product_raises_TypeError ms sp a b s0 Ha Hb Hnone)
      as (evs & s1 & -> & He1 & Hc1 & Hz1).
    exists (before ++ evs
            ++ [EvLog ERROR "Task {} failed: {}"
                  [ANat 0; AExc (RetryError (TypeError_le a b))];
                EvSleep 500]). eexists.
    split; [reflexivity|]. unfold Extends in *. simpl.
    rewrite He1, He0, !calls_of_app, !sleeps_of_app, Hc0, Hc1, Hz0, Hz1.
    split; [by rewrite <- !app_assoc|]. split; [done|]. split; [done|].
    rewrite !elem_of_app. right. right. left.
  - intros sh mp index a b s Hkey Hget Ha Hb Hnone.
    destruct (sync_shopify_to_moysklad_single sh index s Hkey)
      as (before & s0 & He0 & Hc0 & Hz0 & ->).
    simpl shopify_batch_tasks. rewrite Hget, execute_single_task.
    destruct (update_moysklad_product_raises_TypeError sh mp a b s0 Ha Hb Hnone)
      as (evs & s1 & -> & He1 & Hc1 & Hz1).
    exists (before ++ evs
            ++ [EvLog ERROR "Task {} failed: {}"
                  [ANat 0; AExc (RetryError (TypeError_le a b))];
                EvSleep 500]). eexists.
    split; [reflexivity|]. unfold Extends in *. simpl.
    rewrite He1, He0, !calls_of_app, !sleeps_of_app, Hc0, Hc1, Hz0, Hz1.
    split; [by rewrite <- !app_assoc|]. split; [done|]. split; [done|].
    rewrite !elem_of_app. right. right. left.
Qed.

(** C8: in both directions every update request of a reconciliation run is
    made for a source record that has an identity key and a counterpart in
    the target index under that key, and its payload is the translated
    source record with its [id] overwritten by the counterpart's [id]. *)
Theorem update_payload_keeps_target_id :
  (∀ moysklad_products (shopify_by_sku : gmap string ShopifyProduct) s evs data,
     Extends s evs
       (_sync_moysklad_to_shopify moysklad_products shopify_by_sku s).2 →
     ShUpdateProduct data ∈ calls_of evs →
     ∃ ms_product key shopify_product,
       ms_product ∈ moysklad_products
       ∧ ms_code ms_product = Some key
       ∧ shopify_by_sku !! key = Some shopify_product
       ∧ data = sh_set_id (moysklad_to_shopify_product ms_product)
                  (sh_id shopify_product)
       ∧ sh_id data = sh_id shopify_product)
  ∧ (∀ shopify_products (moysklad_by_code : gmap string MoyskladProduct)
       s evs data,
       Extends s evs
         (_sync_shopify_to_moysklad shopify_products moysklad_by_code s).2 →
       MsUpdateProduct data ∈ calls_of evs →
       ∃ shopify_product key moysklad_product,
         shopify_product ∈ shopify_products
         ∧ sh_sku shopify_product = Some key
         ∧ moysklad_by_code !! key = Some moysklad_product
         ∧ data = ms_set_id (shopify_to_moysklad_product shopify_product)
                    (ms_id moysklad_product)
         ∧ ms_id data = ms_id moysklad_product).
Proof.
  split.
  - intros products index s evs data Hext Hin.
    destruct (Emits_sync_moysklad_to_shopify products index s)
      as [_ (evs' & Hext' & Hall)].
    assert (evs' = evs) as ->.
    { unfold Extends in *. rewrite Hext in Hext'. by apply app_inv_head in Hext'. }
    rewrite Forall_forall in Hall.
    destruct (Hall _ Hin) as (ms & Hms & Hkey & Hcase).
    destruct (ms_code ms) as [key|] eqn:Hcode; [|discriminate].
    simpl in Hcase. destruct (index !! key) as [sp|] eqn:Hget; [|discriminate].
    destruct Hcase as [[= ->] _]. by exists ms, key, sp.
  - intros products index s evs data Hext Hin.
    destruct (Emits_sync_shopify_to_moysklad products index s)
      as [_ (evs' & Hext' & Hall)].
    assert (evs' = evs) as ->.
    { unfold Extends in *. rewrite Hext in Hext'. by apply app_inv_head in Hext'. }
    rewrite Forall_forall in Hall.
    destruct (Hall _ Hin) as (sh & Hsh & Hkey & Hcase).
    destruct (sh_sku sh) as [key|] eqn:Hcode; [|discriminate].
    simpl in Hcase. destruct (index !! key) as [mp|] eqn:Hget; [|discriminate].
    destruct Hcase as [[= ->] _]. by exists sh, key, mp.
Qed.

(** *** Inventory *)

Lemma stock_unchanged_spec (current_stock : option Z) (moysklad_stock : Z) :
  stock_unchanged current_stock moysklad_stock = true
  ↔ current_stock = Some moysklad_stock.
Proof.
  unfold stock_unchanged. destruct current_stock as [c|]; [|done].
  rewrite bool_decide_eq_true. split; [by intros ->|by intros [= ->]].
Qed.

Lemma update_shopify_inventory_attempt_calls ms_product shopify_product s :
  stock_unchanged (sh_inventory_quantity shopify_product)
    (match ms_stock ms_product with Some q => q | None => 0%Z end) = false →
  ∃ evs,
    Extends s evs
      (update_shopify_inventory_attempt ms_product shopify_product s).2
    ∧ calls_of evs
      = [ShUpdateInventory (sh_id shopify_product)
           (sh_inventory_item_id shopify_product)
           (match ms_stock ms_product with Some q => q | None => 0%Z end)].
Proof.
  intros Hdiff.
  unfold update_shopify_inventory_attempt, bind, logger, try_except,
    shopify_service_update_inventory, request, raise, ret. cbv zeta.
  rewrite Hdiff. simpl.
  destruct (sh_update_inventory _ _ _ _ _); trace_grew.
Qed.

(** C7: the inventory task of a matched pair.  The stock to set is the
    Moysklad stock, or 0 when Moysklad has none.  When Shopify's known
    quantity equals it, the task returns without sending anything; it sends
    inventory requests (one, or up to three when attempts fail), all for
    that quantity, only when the known quantity differs from it or is not
    known. *)
Theorem inventory_update_only_on_difference ms_product shopify_product s :
  let moysklad_stock :=
    match ms_stock ms_product with Some q => q | None => 0%Z end in
  let task := _update_shopify_inventory ms_product shopify_product in
  (sh_inventory_quantity shopify_product = Some moysklad_stock →
   (task s).1 = Ok tt ∧ Sends task s [])
  ∧ (sh_inventory_quantity shopify_product ≠ Some moysklad_stock →
     ∃ k, (1 ≤ k ≤ 3)%nat
          ∧ Sends task s
              (replicate k
                 (ShUpdateInventory (sh_id shopify_product)
                    (sh_inventory_item_id shopify_product) moysklad_stock)))
  ∧ (∀ cs, Sends task s cs →
           cs ≠ [] →
           sh_inventory_quantity shopify_product ≠ Some moysklad_stock).
Proof.
  intros stock task.
  assert (Hsame : sh_inventory_quantity shopify_product = Some stock →
                  (task s).1 = Ok tt ∧ Sends task s []).
  { intros Heq%stock_unchanged_spec. subst task.
    unfold _update_shopify_inventory. rewrite retry_3_2_unfold.
    unfold update_shopify_inventory_attempt, bind, logger, try_except, ret.
    cbv zeta. fold stock. rewrite Heq. simpl. split; [done|]. trace_grew. }
  split; [exact Hsame|]. split.
  - intros Hne.
    assert (stock_unchanged (sh_inventory_quantity shopify_product) stock
            = false) as Hdiff.
    { apply not_true_is_false. by rewrite stock_unchanged_spec. }
    destruct (retry_3_2_calls
                (update_shopify_inventory_attempt ms_product shopify_product)
                _ s
                (λ s1, update_shopify_inventory_attempt_calls
                         ms_product shopify_product s1 Hdiff))
      as (evs & k & He & Hc & Hk).
    exists k. split; [done|]. by exists evs.
  - intros cs (evs & He & Hc) Hsent Heq.
    destruct (Hsame Heq) as [_ (evs' & He' & Hc')].
    unfold Extends in *. rewrite He in He'. apply app_inv_head in He'.
    subst evs'. congruence.
Qed.

(** *** Computations that return *)

Lemma Returns_ret {St A} (a : A) : Returns (St:=St) (ret a).
Proof. intros st. by exists a. Qed.

Lemma Returns_logger lvl template args :
  Returns (logger (St:=@State Price) lvl template args).
Proof. intros st. by exists tt. Qed.

Lemma Returns_sleep millis : Returns (sleep (Price:=Price) millis).
Proof. intros st. by exists tt. Qed.

Lemma Returns_datetime_now : Returns datetime_now.
Proof. intros st. by eexists. Qed.

Lemma Returns_get_last_sync_time : Returns (get_last_sync_time (Price:=Price)).
Proof. intros st. by eexists. Qed.

Lemma Returns_assign_last_sync_time t :
  Returns (assign_last_sync_time (Price:=Price) t).
Proof. intros st. by exists tt. Qed.

Lemma Returns_bind {St A B} (m : M St A) (k : A → M St B) :
  Returns m → (∀ a, Returns (k a)) → Returns (bind m k).
Proof.
  intros Hm Hk st. unfold bind. destruct (Hm st) as [a Ha].
  destruct (m st) as [[a'|e] st1]; simpl in Ha; [apply Hk|discriminate].
Qed.

Lemma Returns_try_except {St A} (body : M St A) (handler : PyExc → M St A) :
  Returns body → Returns (try_except body handler).
Proof.
  intros Hbody st. unfold try_except. destruct (Hbody st) as [a Ha].
  destruct (body st) as [[a'|e] st1]; simpl in Ha; [by exists a'|discriminate].
Qed.

Lemma Returns_for_each {St X Acc} (xs : list X) (body : X → Acc → M St Acc) acc :
  (∀ x a, Returns (body x a)) → Returns (for_each xs body acc).
Proof.
  intros Hbody. revert acc. induction xs as [|x rest IH]; intros acc; simpl.
  - apply Returns_ret.
  - apply Returns_bind; [apply Hbody|]. intros a. apply IH.
Qed.

Lemma Returns_gather2 {A B} (a : M (@State Price) A) (b : M State B) :
  Returns a → Returns b → Returns (gather2 a b).
Proof.
  intros Ha Hb st. unfold gather2. destruct (Ha st) as [x Hx].
  destruct (a st) as [ra st1]. destruct (Hb st1) as [y Hy].
  destruct (b st1) as [rb st2]. simpl in *. subst. by eexists.
Qed.

Lemma Returns_execute_tasks {St T} `{!Logging (@LogArg Price) St}
    (tasks : list (M St T)) :
  Returns (_execute_tasks_with_limited_concurrency tasks).
Proof. intros st. apply execute_tasks_ok. Qed.

Lemma Returns_request {A} c (answer : list (@Event Price) → Result A) :
  (∀ tr, is_ok (answer tr) = true) → Returns (request c answer).
Proof.
  intros Hok st. unfold request. simpl. specialize (Hok (trace st)).
  destruct (answer (trace st)) as [a|e]; [by exists a|discriminate].
Qed.

Ltac returns_step :=
  lazymatch goal with
  | |- Returns (ret _) => apply Returns_ret
  | |- Returns (logger _ _ _) => apply Returns_logger
  | |- Returns (sleep _) => apply Returns_sleep
  | |- Returns datetime_now => apply Returns_datetime_now
  | |- Returns get_last_sync_time => apply Returns_get_last_sync_time
  | |- Returns (assign_last_sync_time _) => apply Returns_assign_last_sync_time
  | |- Returns (_execute_tasks_with_limited_concurrency _) =>
      apply Returns_execute_tasks
  | |- Returns (try_except _ _) => apply Returns_try_except
  | |- Returns (bind _ _) => apply Returns_bind
  | |- Returns (gather2 _ _) => apply Returns_gather2
  | |- Returns (for_each _ _ _) => apply Returns_for_each
  | |- Returns (run_price_batch _) => unfold run_price_batch
  | |- Returns (match ?l with [] => _ | _ :: _ => _ end) => destruct l
  | |- Returns (if ?b then _ else _) => destruct b
  | |- Returns (match ?o with Some _ => _ | None => _ end) => destruct o
  | |- ∀ _, _ => intro
  end.

Ltac returns := cbv zeta; repeat returns_step.

Section Reachable.
Hypothesis Hreachable : catalogs_reachable.

Lemma Returns_get_all_moysklad with_stock since :
  Returns (moysklad_service_get_all_products with_stock since).
Proof. apply Returns_request. intros tr. apply Hreachable. Qed.

Lemma Returns_get_all_shopify with_inventory since :
  Returns (shopify_service_get_all_products with_inventory since).
Proof. apply Returns_request. intros tr. apply Hreachable. Qed.

Lemma Returns_sync_products full_sync : Returns (sync_products full_sync).
Proof.
  unfold sync_products, products_modified_since, _sync_moysklad_to_shopify,
    _sync_shopify_to_moysklad.
  returns; try apply Returns_get_all_moysklad;
    try apply Returns_get_all_shopify.
  all: destruct full_sync; simpl; returns;
    try apply Returns_get_all_moysklad; try apply Returns_get_all_shopify.
Qed.

Lemma Returns_sync_product_inventory full_sync :
  Returns (sync_product_inventory full_sync).
Proof.
  unfold sync_product_inventory, phase_modified_since.
  returns; try apply Returns_get_all_moysklad;
    try apply Returns_get_all_shopify.
  all: destruct full_sync; simpl; returns.
Qed.

Lemma Returns_sync_product_prices full_sync :
  Returns (sync_product_prices full_sync).
Proof.
  unfold sync_product_prices, phase_modified_since,
    _sync_prices_moysklad_to_shopify, _sync_prices_shopify_to_moysklad.
  returns; try apply Returns_get_all_moysklad;
    try apply Returns_get_all_shopify.
  all: destruct full_sync; simpl; returns.
Qed.


End Reachable.

(** *** The price phase under an unrecognised direction *)



(** *** Prices *)

Lemma price_ne_false (a b : option Price) : price_ne a b = false ↔ a = b.
Proof.
  unfold price_ne. rewrite negb_false_iff. apply bool_decide_eq_true.
Qed.

Lemma price_ne_true (a b : option Price) : price_ne a b = true ↔ a ≠ b.
Proof.
  unfold price_ne. rewrite negb_true_iff. apply bool_decide_eq_false.
Qed.

Lemma update_shopify_price_attempt_calls product_id variant_id price s :
  ∃ evs,
    Extends s evs (update_shopify_price_attempt product_id variant_id price s).2
    ∧ calls_of evs = [ShUpdatePrice product_id variant_id price].
Proof.
  unfold update_shopify_price_attempt, bind, logger, try_except,
    shopify_service_update_price, request, raise, ret. simpl.
  destruct (sh_update_price _ _ _ _ _); trace_grew.
Qed.

Lemma update_moysklad_price_attempt_calls product_id price s :
  ∃ evs,
    Extends s evs (update_moysklad_price_attempt product_id price s).2
    ∧ calls_of evs = [MsUpdatePrice product_id price].
Proof.
  unfold update_moysklad_price_attempt, bind, logger, try_except,
    moysklad_service_update_price, request, raise, ret. simpl.
  destruct (ms_update_price _ _ _ _); trace_grew.
Qed.

(** The pairs of [valid_products]: a source product with an identity key
    and a price, and the entry of the target index under that key. *)
Lemma moysklad_price_pairs_spec moysklad_products
    (shopify_by_sku : gmap string ShopifyProduct) ms_product shopify_product :
  (ms_product, shopify_product)
    ∈ moysklad_price_pairs moysklad_products shopify_by_sku →
  ms_product ∈ moysklad_products
  ∧ truthy (ms_code ms_product) = true
  ∧ is_Some (ms_price ms_product)
  ∧ dict_get shopify_by_sku (ms_code ms_product) = Some shopify_product.
Proof.
  unfold moysklad_price_pairs. rewrite list_elem_of_omap.
  intros (p & Hin & Hp).
  destruct (truthy (ms_code p)) eqn:Hkey; [|discriminate].
  destruct (bool_decide (is_Some (ms_price p))) eqn:Hprice; [|discriminate].
  simpl in Hp.
  destruct (dict_get shopify_by_sku (ms_code p)) as [sp|] eqn:Hget;
    [|discriminate].
  injection Hp as <- <-. apply bool_decide_eq_true in Hprice. done.
Qed.

Lemma shopify_price_pairs_spec shopify_products
    (moysklad_by_code : gmap string MoyskladProduct)
    shopify_product moysklad_product :
  (shopify_product, moysklad_product)
    ∈ shopify_price_pairs shopify_products moysklad_by_code →
  shopify_product ∈ shopify_products
  ∧ truthy (sh_sku shopify_product) = true
  ∧ is_Some (sh_price shopify_product)
  ∧ dict_get moysklad_by_code (sh_sku shopify_product) = Some moysklad_product.
Proof.
  unfold shopify_price_pairs. rewrite list_elem_of_omap.
  intros (p & Hin & Hp).
  destruct (truthy (sh_sku p)) eqn:Hkey; [|discriminate].
  destruct (bool_decide (is_Some (sh_price p))) eqn:Hprice; [|discriminate].
  simpl in Hp.
  destruct (dict_get moysklad_by_code (sh_sku p)) as [mp|] eqn:Hget;
    [|discriminate].
  injection Hp as <- <-. apply bool_decide_eq_true in Hprice. done.
Qed.

(** Price sync, pair by pair, as the code has it.  For every matched pair
    of the chosen direction the price to write is the Moysklad price as it
    is stored, towards Shopify, and the Shopify price taken through
    [price_to_moysklad_format], towards Moysklad.  The pair contributes no
    task, hence no request, when the receiving side's stored price is
    exactly that value; otherwise it contributes one update task, which
    sends update requests for that value (one, or up to three when
    attempts fail). *)
Lemma price_tasks_by_stored_prices :
  (∀ moysklad_products (shopify_by_sku : gmap string ShopifyProduct)
     ms_product shopify_product s,
     (ms_product, shopify_product)
       ∈ moysklad_price_pairs moysklad_products shopify_by_sku →
     ∃ price,
       ms_price ms_product = Some price
       ∧ (sh_price shopify_product = Some price →
          moysklad_price_task (ms_product, shopify_product) = [])
       ∧ (sh_price shopify_product ≠ Some price →
          ∃ task k,
            moysklad_price_task (ms_product, shopify_product) = [task]
            ∧ (1 ≤ k ≤ 3)%nat
            ∧ Sends task s
                (replicate k
                   (ShUpdatePrice (sh_id shopify_product)
                      (sh_variant_id shopify_product) price))))
  ∧ (∀ shopify_products (moysklad_by_code : gmap string MoyskladProduct)
       shopify_product moysklad_product s,
       (shopify_product, moysklad_product)
         ∈ shopify_price_pairs shopify_products moysklad_by_code →
       ∃ price,
         sh_price shopify_product = Some price
         ∧ (ms_price moysklad_product = Some (price_to_moysklad_format price) →
            shopify_price_task (shopify_product, moysklad_product) = [])
         ∧ (ms_price moysklad_product ≠ Some (price_to_moysklad_format price) →
            ∃ task k,
              shopify_price_task (shopify_product, moysklad_product) = [task]
              ∧ (1 ≤ k ≤ 3)%nat
              ∧ Sends task s
                  (replicate k
                     (MsUpdatePrice (ms_id moysklad_product)
                        (price_to_moysklad_format price))))).
Proof.
  split.
  - intros products index ms sp s Hin.
    apply moysklad_price_pairs_spec in Hin as (_ & _ & [price Hprice] & _).
    exists price. split; [done|]. unfold moysklad_price_task. rewrite Hprice.
    split.
    + intros Heq%price_ne_false. by rewrite Heq.
    + intros Hne%price_ne_true. rewrite Hne.
      destruct (retry_3_2_calls
                  (update_shopify_price_attempt (sh_id sp) (sh_variant_id sp) price)
                  _ s
                  (update_shopify_price_attempt_calls (sh_id sp)
                     (sh_variant_id sp) price))
        as (evs & k & He & Hc & Hk).
      eexists _, k. split; [reflexivity|]. split; [done|]. by exists evs.
  - intros products index sp mp s Hin.
    apply shopify_price_pairs_spec in Hin as (_ & _ & [price Hprice] & _).
    exists price. split; [done|]. unfold shopify_price_task. rewrite Hprice.
    cbv zeta. split.
    + intros Heq%price_ne_false. by rewrite Heq.
    + intros Hne%price_ne_true. rewrite Hne.
      destruct (retry_3_2_calls
                  (update_moysklad_price_attempt (ms_id mp)
                     (price_to_moysklad_format price))
                  _ s
                  (update_moysklad_price_attempt_calls (ms_id mp)
                     (price_to_moysklad_format price)))
        as (evs & k & He & Hc & Hk).
      eexists _, k. split; [reflexivity|]. split; [done|]. by exists evs.
Qed.

(** *** The modification cutoff *)

(** What each phase takes for [modified_since].  The products phase
    follows the three-way rule: nothing for a full sync, the watermark when
    there is one, and otherwise the clock minus 24 hours.  The inventory
    and price phases have no such default: without a watermark their
    cutoff is [None] also when [full_sync] is false. *)
Lemma modified_since_resolution what s :
  (products_modified_since true s).1 = Ok None
  ∧ (products_modified_since false s).1
    = Ok (Some (match last_sync_time s with
                | Some t => t
                | None => wall_clock (ticks s) - timedelta_hours 24
                end)%Z)
  ∧ (phase_modified_since what true s).1 = Ok None
  ∧ (phase_modified_since what false s).1 = Ok (last_sync_time s).
Proof.
  unfold products_modified_since, phase_modified_since, bind,
    get_last_sync_time, datetime_now, logger, ret.
  simpl. by destruct (last_sync_time s).
Qed.

(** C3 on the code: a matched pair whose prices are equal after unit
    conversion, the Moysklad price being the Shopify price taken through
    [price_to_moysklad_format], where the conversion changes the value.
    Towards Moysklad the pair needs no update, as the claim says.  Towards
    Shopify the two stored prices are compared without any conversion: the
    pair gets an update task, and the task sends price requests that
    carry the Moysklad value to Shopify unconverted. *)
Theorem moysklad_to_shopify_price_sync_skips_conversion
    ms_product shopify_product price s :
  sh_price shopify_product = Some price →
  ms_price ms_product = Some (price_to_moysklad_format price) →
  price_to_moysklad_format price ≠ price →
  shopify_price_task (shopify_product, ms_product) = []
  ∧ ∃ task k,
      moysklad_price_task (ms_product, shopify_product) = [task]
      ∧ (1 ≤ k ≤ 3)%nat
      ∧ Sends task s
          (replicate k
             (ShUpdatePrice (sh_id shopify_product)
                (sh_variant_id shopify_product)
                (price_to_moysklad_format price))).
Proof.
  intros Hsh Hms Hne. split.
  - unfold shopify_price_task. rewrite Hsh, Hms. cbv zeta.
    assert (price_ne (Some (price_to_moysklad_format price))
              (Some (price_to_moysklad_format price)) = false) as ->; [|done].
    by apply price_ne_false.
  - unfold moysklad_price_task. rewrite Hsh, Hms.
    assert (price_ne (Some price) (Some (price_to_moysklad_format price)) = true)
      as ->.
    { apply price_ne_true. intros [= Heq]. by apply Hne. }
    destruct (retry_3_2_calls
                (update_shopify_price_attempt (sh_id shopify_product)
                   (sh_variant_id shopify_product)
                   (price_to_moysklad_format price))
                _ s
                (update_shopify_price_attempt_calls (sh_id shopify_product)
                   (sh_variant_id shopify_product)
                   (price_to_moysklad_format price)))
      as (evs & k & He & Hc & Hk).
    eexists _, k. split; [reflexivity|]. split; [done|]. by exists evs.
Qed.

(** *** The products phase and the failures of single products *)

Lemma Returns_sync_moysklad_to_shopify moysklad_products
    (shopify_by_sku : gmap string ShopifyProduct) :
  Returns (_sync_moysklad_to_shopify moysklad_products shopify_by_sku).
Proof. unfold _sync_moysklad_to_shopify. returns. Qed.

Lemma Returns_sync_shopify_to_moysklad shopify_products
    (moysklad_by_code : gmap string MoyskladProduct) :
  Returns (_sync_shopify_to_moysklad shopify_products moysklad_by_code).
Proof. unfold _sync_shopify_to_moysklad. returns. Qed.

Lemma Returns_products_modified_since full_sync :
  Returns (products_modified_since full_sync).
Proof.
  unfold products_modified_since. returns.
Qed.

Lemma RaisesOnly_Returns {St A} (E : PyExc → Prop) (m : M St A) :
  Returns m → RaisesOnly E m.
Proof. intros Hm st e He. destruct (Hm st) as [a Ha]. congruence. Qed.

Lemma RaisesOnly_bind {St A B} (E : PyExc → Prop) (m : M St A)
    (k : A → M St B) :
  RaisesOnly E m → (∀ a, RaisesOnly E (k a)) → RaisesOnly E (bind m k).
Proof.
  intros Hm Hk st e. unfold bind. specialize (Hm st).
  destruct (m st) as [[a|e'] st1]; simpl in *.
  - apply Hk.
  - intros [= ->]. by apply Hm.
Qed.

Lemma RaisesOnly_get_all_moysklad with_stock since :
  RaisesOnly fetch_error (moysklad_service_get_all_products with_stock since).
Proof.
  intros s e. unfold moysklad_service_get_all_products, request. simpl.
  intros He. exists (trace s), with_stock, since. by left.
Qed.

Lemma RaisesOnly_get_all_shopify with_inventory since :
  RaisesOnly fetch_error
    (shopify_service_get_all_products with_inventory since).
Proof.
  intros s e. unfold shopify_service_get_all_products, request. simpl.
  intros He. exists (trace s), with_inventory, since. by right.
Qed.

Ltac raises_only_step :=
  lazymatch goal with
  | |- RaisesOnly _ (moysklad_service_get_all_products _ _) =>
      apply RaisesOnly_get_all_moysklad
  | |- RaisesOnly _ (shopify_service_get_all_products _ _) =>
      apply RaisesOnly_get_all_shopify
  | |- RaisesOnly _ (products_modified_since _) =>
      apply RaisesOnly_Returns, Returns_products_modified_since
  | |- RaisesOnly _ (gather2 _ _) =>
      apply RaisesOnly_Returns, Returns_gather2;
      [apply Returns_sync_moysklad_to_shopify
      |apply Returns_sync_shopify_to_moysklad]
  | |- RaisesOnly _ (if ?b then _ else _) => destruct b
  | |- RaisesOnly _ (bind _ _) => apply RaisesOnly_bind
  | |- RaisesOnly _ _ => apply RaisesOnly_Returns; solve [returns]
  | |- ∀ _, _ => intro
  end.

(** The handlers of [sync_products] log the exception and raise it again,
    unchanged. *)
Lemma sync_products_handler_run (e : PyExc) s :
  (match e with
   | MoyskladError _ | ShopifyError _ =>
       logger ERROR "Error during product synchronization: {}" [AExc e] ;;;
       raise e
   | _ =>
       logger ERROR "Unexpected error during product synchronization: {}"
         [AExc e] ;;;
       raise e
   end) s
  = (Raise (A:=unit) e,
     emit (EvLog ERROR (sync_products_error_template e) [AExc e]) s).
Proof. by destruct e. Qed.

(** X3: an exception comes out of [sync_products] only when a request for
    a catalog raised it: no failure of a create or update task, however
    often retried, makes the phase raise.  The exception is raised again
    as it was, and the last thing the phase did was to log it, under the
    message for platform errors ([MoyskladError], [ShopifyError]) or the
    one for unexpected errors. *)
Theorem sync_products_raises_fetch_errors_only full_sync s e :
  (sync_products full_sync s).1 = Raise e →
  fetch_error e
  ∧ last (trace (sync_products full_sync s).2)
    = Some (EvLog ERROR (sync_products_error_template e) [AExc e]).
Proof.
  unfold sync_products.
  lazymatch goal with
  | |- context [try_except ?body ?h] =>
      set (b := body);
      assert (Hbody : RaisesOnly fetch_error b)
        by (subst b; cbv zeta; repeat raises_only_step);
      specialize (Hbody s)
  end.
  unfold try_except. destruct (b s) as [[u|e'] s1]; [discriminate|].
  rewrite sync_products_handler_run. simpl. intros [= ->].
  split; [by apply Hbody|]. apply last_snoc.
Qed.

(** The watermark part of [sync_products], for use below. *)
Lemma sync_products_marks full_sync s :
  match sync_products full_sync s with
  | (Ok _, s') => last_sync_time s' = Some (wall_clock (ticks s))
  | (Raise _, s') => last_sync_time s' = last_sync_time s
  end.
Proof.
  set (t0 := wall_clock (ticks s)).
  set (s0 := {| last_sync_time := last_sync_time s; trace := trace s;
                ticks := S (ticks s) |}).
  unfold sync_products.
  lazymatch goal with
  | |- context [try_except (bind datetime_now ?k) ?h] =>
      change (try_except (bind datetime_now k) h s)
        with (try_except (k t0) h s0);
      change (last_sync_time s) with (last_sync_time s0);
      apply (Marks_try_except (@any_request Price) t0 (k t0) h)
  end.
  - cbv beta. repeat marks_step.
    intros s1. eexists. reflexivity.
  - intros e. destruct e; emits_any.
  - intros e s1. apply sync_products_handler_raises.
Qed.

(** X4: failures of single products do not hold the watermark back.  As
    long as both platforms list their catalogs, [sync_products] returns
    and sets the watermark to the reading of the clock it took at its
    start, whatever the platforms answer to the create and update
    requests. *)
Theorem sync_products_advances_despite_task_failures full_sync s :
  catalogs_reachable →
  ∃ s', sync_products full_sync s = (Ok tt, s')
        ∧ last_sync_time s' = Some (wall_clock (ticks s)).
Proof.
  intros Hreach.
  pose proof (sync_products_marks full_sync s) as Hmarks.
  destruct (Returns_sync_products Hreach full_sync s) as [[] Hok].
  destruct (sync_products full_sync s) as [[[]|e] s']; [|discriminate].
  by exists s'.
Qed.

(** *** What each phase may send *)

Lemma Forall_Emits_map {X A} P (f : X → M State A) (xs : list X) :
  (∀ x, Emits P (f x)) → Forall (Emits P) (map f xs).
Proof. intros Hf. apply Forall_map, Forall_forall. intros x _. apply Hf. Qed.

Lemma Emits_sync_product_inventory full_sync :
  Emits inventory_phase_request (sync_product_inventory full_sync).
Proof.
  unfold sync_product_inventory. cbv zeta.
  repeat lazymatch goal with
  | |- Emits _ (moysklad_service_get_all_products _ _) =>
      apply Emits_get_all_moysklad; reflexivity
  | |- Emits _ (shopify_service_get_all_products _ _) =>
      apply Emits_get_all_shopify; split; reflexivity
  | |- Emits _ (phase_modified_since _ _) =>
      apply Emits_phase_modified_since
  | |- Emits _ (_execute_tasks_with_limited_concurrency _) =>
      apply Emits_execute_tasks, Forall_Emits_map; intros [ms sp];
      eapply Emits_weaken; [|apply Emits_update_shopify_inventory];
      by intros c [-> _]
  | _ => emits_step
  end.
Qed.

(** X5: the inventory phase, in any state and whatever the platforms
    answer.  It does not touch the watermark.  It asks Moysklad for the
    catalog with stock and Shopify for the whole catalog with inventory
    (the cutoff is not passed to Shopify), and apart from that it sends
    only inventory updates: it never creates or updates a product or a
    price. *)
Theorem inventory_phase_footprint full_sync s :
  Footprint inventory_phase_request s (sync_product_inventory full_sync s).2.
Proof. apply Emits_sync_product_inventory. Qed.

Lemma Emits_run_price_batch P (tasks : list (M State unit)) :
  Forall (Emits P) tasks → Emits P (run_price_batch tasks).
Proof.
  intros Hall. unfold run_price_batch. apply Emits_bind; [|intros; emits].
  destruct tasks; [emits|].
  apply Emits_bind; [by apply Emits_execute_tasks|intros; emits].
Qed.

Lemma Forall_Emits_concat_map {X A} P (f : X → list (M State A)) (xs : list X) :
  (∀ x, Forall (Emits P) (f x)) → Forall (Emits P) (concat (map f xs)).
Proof.
  intros Hf. apply Forall_concat, Forall_map, Forall_forall.
  intros x _. apply Hf.
Qed.

Lemma Emits_moysklad_price_task (pair : MoyskladProduct * ShopifyProduct) :
  price_sync_direction = "moysklad_to_shopify" →
  Forall (Emits price_phase_request) (moysklad_price_task pair).
Proof.
  intros Hd. destruct pair as [ms sp]. unfold moysklad_price_task.
  destruct (price_ne _ _); [|constructor].
  destruct (ms_price ms) as [price|]; [|constructor].
  apply Forall_cons. split; [|constructor].
  eapply Emits_weaken; [|apply Emits_update_shopify_price].
  by intros c ->.
Qed.

Lemma Emits_shopify_price_task (pair : ShopifyProduct * MoyskladProduct) :
  price_sync_direction = "shopify_to_moysklad" →
  Forall (Emits price_phase_request) (shopify_price_task pair).
Proof.
  intros Hd. destruct pair as [sp mp]. unfold shopify_price_task.
  destruct (sh_price sp) as [price|]; [|constructor]. cbv zeta.
  destruct (price_ne _ _); [|constructor].
  apply Forall_cons. split; [|constructor].
  eapply Emits_weaken; [|apply Emits_update_moysklad_price].
  by intros c ->.
Qed.

Lemma Emits_sync_product_prices full_sync :
  Emits price_phase_request (sync_product_prices full_sync).
Proof.
  unfold sync_product_prices. cbv zeta.
  destruct (String.eqb price_sync_direction "moysklad_to_shopify") eqn:Hd1;
    [|destruct (String.eqb price_sync_direction "shopify_to_moysklad") eqn:Hd2].
  - apply String.eqb_eq in Hd1.
    unfold _sync_prices_moysklad_to_shopify. cbv zeta.
    repeat lazymatch goal with
    | |- Emits _ (moysklad_service_get_all_products _ _) =>
        apply Emits_get_all_moysklad; reflexivity
    | |- Emits _ (shopify_service_get_all_products _ _) =>
        apply Emits_get_all_shopify; reflexivity
    | |- Emits _ (phase_modified_since _ _) =>
        apply Emits_phase_modified_since
    | |- Emits _ (run_price_batch _) =>
        apply Emits_run_price_batch, Forall_Emits_concat_map;
        intros pair; by apply Emits_moysklad_price_task
    | _ => emits_step
    end.
  - apply String.eqb_eq in Hd2.
    unfold _sync_prices_shopify_to_moysklad. cbv zeta.
    repeat lazymatch goal with
    | |- Emits _ (moysklad_service_get_all_products _ _) =>
        apply Emits_get_all_moysklad; reflexivity
    | |- Emits _ (shopify_service_get_all_products _ _) =>
        apply Emits_get_all_shopify; reflexivity
    | |- Emits _ (phase_modified_since _ _) =>
        apply Emits_phase_modified_since
    | |- Emits _ (run_price_batch _) =>
        apply Emits_run_price_batch, Forall_Emits_concat_map;
        intros pair; by apply Emits_shopify_price_task
    | _ => emits_step
    end.
  - repeat lazymatch goal with
    | |- Emits _ (moysklad_service_get_all_products _ _) =>
        apply Emits_get_all_moysklad; reflexivity
    | |- Emits _ (shopify_service_get_all_products _ _) =>
        apply Emits_get_all_shopify; reflexivity
    | |- Emits _ (phase_modified_since _ _) =>
        apply Emits_phase_modified_since
    | _ => emits_step
    end.
Qed.

Lemma Forall_Emits_concat_map_in {X A} P (f : X → list (M State A))
    (xs : list X) :
  (∀ x, x ∈ xs → Forall (Emits P) (f x)) →
  Forall (Emits P) (concat (map f xs)).
Proof.
  intros Hf. apply Forall_concat, Forall_map, Forall_forall.
  intros x Hx. by apply Hf.
Qed.

(** X6: the price phase, in any state and whatever the platforms answer.
    It does not touch the watermark.  Besides the two catalog requests it
    sends only price updates, and only towards the receiving side of the
    configured direction: no Moysklad price is written unless the
    direction is [shopify_to_moysklad], no Shopify price unless it is
    [moysklad_to_shopify]; it never creates or updates a product or an
    inventory level. *)
Theorem price_phase_footprint full_sync s :
  Footprint price_phase_request s (sync_product_prices full_sync s).2.
Proof. apply Emits_sync_product_prices. Qed.

(** *** Attempts and delays *)

(** When every attempt sends exactly the request [c] and does not sleep,
    the retried task sends [c] once per attempt, sleeps two seconds
    between attempts, and raises only after the third attempt, with that
    attempt's exception inside [RetryError]. *)
Lemma retry_3_2_profile {A} (fn : M State A) (c : @RemoteCall Price) s :
  (∀ s1, ∃ evs, Extends s1 evs (fn s1).2
                ∧ calls_of evs = [c] ∧ sleeps_of evs = []) →
  ∃ evs k,
    Extends s evs (retry 3 2 fn s).2
    ∧ (1 ≤ k ≤ 3)%nat
    ∧ calls_of evs = replicate k c
    ∧ sleeps_of evs = replicate (k - 1) 2000%nat
    ∧ match (retry 3 2 fn s).1 with
      | Ok _ => True
      | Raise e' =>
          k = 3%nat ∧ ∃ e s1, e' = RetryError e ∧ (fn s1).1 = Raise e
      end.
Proof.
  intros Hfn. rewrite retry_3_2_unfold.
  destruct (Hfn s) as (evs1 & He1 & Hc1 & Hz1).
  destruct (fn s) as [[v|e1] s1]; simpl in He1.
  { exists evs1, 1%nat. simpl. repeat split; [done|lia|lia|done|done]. }
  pose proof (Extends_emit s1 (EvSleep 2000)) as Hs1.
  destruct (Hfn (emit (EvSleep 2000) s1)) as (evs2 & He2 & Hc2 & Hz2).
  pose proof (Extends_trans _ _ _ _ _ (Extends_trans _ _ _ _ _ He1 Hs1) He2)
    as He12.
  destruct (fn (emit (EvSleep 2000) s1)) as [[v|e2] s2]; simpl in He2, He12.
  { eexists _, 2%nat. split; [exact He12|]. split; [lia|]. simpl.
    rewrite !calls_of_app, !sleeps_of_app, Hc1, Hc2, Hz1, Hz2.
    repeat split. }
  pose proof (Extends_emit s2 (EvSleep 2000)) as Hs2.
  destruct (Hfn (emit (EvSleep 2000) s2)) as (evs3 & He3 & Hc3 & Hz3).
  pose proof (Extends_trans _ _ _ _ _ (Extends_trans _ _ _ _ _ He12 Hs2) He3)
    as He123.
  destruct (fn (emit (EvSleep 2000) s2)) as [[v|e3] s3] eqn:Hthird;
    simpl in He3, He123.
  - eexists _, 3%nat. split; [exact He123|]. split; [lia|]. simpl.
    rewrite !calls_of_app, !sleeps_of_app, Hc1, Hc2, Hc3, Hz1, Hz2, Hz3.
    repeat split.
  - eexists _, 3%nat. split; [exact He123|]. split; [lia|]. simpl.
    rewrite !calls_of_app, !sleeps_of_app, Hc1, Hc2, Hc3, Hz1, Hz2, Hz3.
    repeat split. exists e3, (emit (EvSleep 2000) s2). by rewrite Hthird.
Qed.

(** One attempt of [_update_moysklad_price]. *)
Lemma update_moysklad_price_attempt_run product_id price s :
  update_moysklad_price_attempt product_id price s
  = match ms_update_price remote (trace s) product_id price with
    | Ok _ =>
        (Ok tt,
         emit (EvLog INFO "Updated price for Moysklad product {} to {}"
                 [AStr product_id; APrice price])
           (emit (EvCall (MsUpdatePrice product_id price)) s))
    | Raise e =>
        (Raise e,
         emit (EvLog ERROR "Failed to update price for Moysklad product {}: {}"
                 [AStr product_id; AExc e])
           (emit (EvCall (MsUpdatePrice product_id price)) s))
    end.
Proof.
  unfold update_moysklad_price_attempt, bind, logger, try_except,
    moysklad_service_update_price, request, raise, ret. simpl.
  by destruct (ms_update_price _ _ _ _).
Qed.

(** X7: [_update_moysklad_price] under its retry wrapper, whatever
    Moysklad answers.  It sends the same price request once, twice or
    three times and sleeps two seconds between two requests, never after
    the last.  It raises only when three requests were refused; the
    exception is then tenacity's [RetryError] around an exception that
    Moysklad raised for this very request. *)
Theorem update_moysklad_price_attempts product_id price s :
  ∃ evs k,
    Extends s evs (_update_moysklad_price product_id price s).2
    ∧ (1 ≤ k ≤ 3)%nat
    ∧ calls_of evs = replicate k (MsUpdatePrice product_id price)
    ∧ sleeps_of evs = replicate (k - 1) 2000%nat
    ∧ match (_update_moysklad_price product_id price s).1 with
      | Ok _ => True
      | Raise e' =>
          k = 3%nat
          ∧ ∃ e tr, e' = RetryError e
                    ∧ ms_update_price remote tr product_id price = Raise e
      end.
Proof.
  unfold _update_moysklad_price.
  destruct (retry_3_2_profile (update_moysklad_price_attempt product_id price)
              (MsUpdatePrice product_id price) s)
    as (evs & k & He & Hk & Hc & Hz & Hres).
  { intros s1. rewrite update_moysklad_price_attempt_run.
    destruct (ms_update_price _ _ _ _);
      (eexists; split;
       [unfold Extends; simpl; rewrite <- ?app_assoc; simpl; reflexivity
       |split; reflexivity]). }
  exists evs, k. repeat (split; [done|]).
  destruct (retry 3 2 _ s).1 as [v|e']; [done|].
  destruct Hres as (-> & e & s1 & -> & Hfn). split; [done|].
  exists e, (trace s1). split; [done|].
  rewrite update_moysklad_price_attempt_run in Hfn.
  destruct (ms_update_price _ _ _ _); simpl in Hfn; congruence.
Qed.

(** *** Every wrapped mutation under its three attempts *)

Lemma calls_of_call (c : @RemoteCall Price) evs :
  calls_of (EvCall c :: evs) = c :: calls_of evs.
Proof. reflexivity. Qed.

Lemma sleeps_of_call (c : @RemoteCall Price) evs :
  sleeps_of (EvCall c :: evs) = sleeps_of evs.
Proof. reflexivity. Qed.

(** The retry wrapper around a function that makes one request per run:
    one request per attempt. *)
Lemma OneRequest_AtMostThreeAttempts {A} (fn : M State A) (c : @RemoteCall Price)
    (answer : list (@Event Price) → Result A) :
  OneRequest fn c answer → AtMostThreeAttempts (retry 3 2 fn) c.
Proof.
  intros Hfn s.
  destruct (retry_3_2_profile fn c s) as (evs & k & He & Hk & Hc & Hz & Hres).
  { intros s1.
    destruct (Hfn s1) as (b & a & _ & He & Hcb & Hca & Hzb & Hza).
    eexists. split; [exact He|].
    by rewrite calls_of_app, sleeps_of_app, calls_of_call, sleeps_of_call,
      Hcb, Hca, Hzb, Hza. }
  exists evs, k. repeat (split; [done|]).
  intros e He'. rewrite He' in Hres.
  destruct Hres as (-> & e3 & _ & -> & _). eauto.
Qed.

(** The same wrapper when the first two requests are refused. *)
Lemma OneRequest_ThirdAttemptIsLast {A} (fn : M State A) (c : @RemoteCall Price)
    (answer : list (@Event Price) → Result A) :
  OneRequest fn c answer → ThirdAttemptIsLast (retry 3 2 fn) c answer.
Proof.
  intros Hfn s e1 e2 third H1 H2 H3. rewrite retry_3_2_unfold.
  destruct (Hfn s) as (b1 & a1 & Hr1 & He1 & Hcb1 & Hca1 & Hzb1 & Hza1).
  rewrite H1 in Hr1 by (by rewrite Hcb1).
  destruct (fn s) as [r1 s1]. simpl in Hr1, He1. subst r1.
  pose proof (Extends_trans _ _ _ _ _ He1 (Extends_emit s1 (EvSleep 2000)))
    as Hs1.
  destruct (Hfn (emit (EvSleep 2000) s1))
    as (b2 & a2 & Hr2 & He2 & Hcb2 & Hca2 & Hzb2 & Hza2).
  pose proof Hs1 as Ht1. unfold Extends in Ht1.
  rewrite Ht1, <- (app_assoc (trace s)) in Hr2.
  rewrite H2 in Hr2
    by (by rewrite !calls_of_app, calls_of_call, Hcb1, Hca1, Hcb2).
  pose proof (Extends_trans _ _ _ _ _ Hs1 He2) as He12.
  destruct (fn (emit (EvSleep 2000) s1)) as [r2 s2].
  simpl in Hr2, He2, He12. subst r2.
  pose proof (Extends_trans _ _ _ _ _ He12 (Extends_emit s2 (EvSleep 2000)))
    as Hs2.
  destruct (Hfn (emit (EvSleep 2000) s2))
    as (b3 & a3 & Hr3 & He3 & Hcb3 & Hca3 & Hzb3 & Hza3).
  pose proof Hs2 as Ht2. unfold Extends in Ht2.
  rewrite Ht2, <- (app_assoc (trace s)) in Hr3.
  rewrite H3 in Hr3
    by (by rewrite !calls_of_app, !calls_of_call, Hcb1, Hca1, Hcb2, Hca2, Hcb3).
  pose proof (Extends_trans _ _ _ _ _ Hs2 He3) as He123.
  destruct (fn (emit (EvSleep 2000) s2)) as [r3 s3].
  simpl in Hr3, He3, He123. subst r3.
  eexists _, s3. split; [by destruct third|]. split; [exact He123|].
  rewrite !calls_of_app, !sleeps_of_app, !calls_of_call, !sleeps_of_call,
    Hcb1, Hca1, Hcb2, Hca2, Hcb3, Hca3, Hzb1, Hza1, Hzb2, Hza2, Hzb3, Hza3.
  split; reflexivity.
Qed.

Lemma OneRequest_Retried {A} (fn : M State A) (c : @RemoteCall Price)
    (answer : list (@Event Price) → Result A) :
  OneRequest fn c answer → Retried (retry 3 2 fn) c answer.
Proof.
  intros Hfn. split.
  - by eapply OneRequest_AtMostThreeAttempts.
  - by apply OneRequest_ThirdAttemptIsLast.
Qed.

(** Closes [OneRequest] for an attempt whose code has been unfolded down
    to the answer of the platform; [before] is the list of events that
    precede the request. *)
Ltac one_request before :=
  let Hanswer := fresh "Hanswer" in
  lazymatch goal with
  | |- context [match ?answer with Ok _ => _ | Raise _ => _ end] =>
      destruct answer as [?|?] eqn:Hanswer
  end;
  simpl;
  (exists before; eexists;
   split; [rewrite ?app_nil_r;
           try match goal with u : unit |- _ => destruct u end;
           symmetry; exact Hanswer|];
   split; [unfold Extends; simpl; rewrite <- ?app_assoc; simpl; reflexivity|];
   repeat split).

Lemma create_shopify_product_attempt_OneRequest ms_product :
  let data := moysklad_to_shopify_product ms_product in
  OneRequest (create_shopify_product_attempt ms_product)
    (ShCreateProduct data) (λ tr, sh_create_product remote tr data).
Proof.
  intros data s.
  unfold create_shopify_product_attempt, bind, logger, try_except,
    shopify_service_create_product, request, raise, ret. simpl.
  one_request
    ([EvLog INFO "Creating new Shopify product from Moysklad ID: {}"
                 [AStr (ms_id ms_product)]]
     : list (@Event Price)).
Qed.

Lemma update_shopify_product_attempt_OneRequest ms_product shopify_product :
  let data := sh_set_id (moysklad_to_shopify_product ms_product)
                (sh_id shopify_product) in
  not_newer (ms_updated_at ms_product) (sh_updated_at shopify_product) = false →
  incomparable (ms_updated_at ms_product) (sh_updated_at shopify_product)
  = false →
  OneRequest (update_shopify_product_attempt ms_product shopify_product)
    (ShUpdateProduct data) (λ tr, sh_update_product remote tr data).
Proof.
  intros data Hnewer Hcmp s.
  unfold update_shopify_product_attempt, bind, logger, try_except,
    shopify_service_update_product, request, raise, ret.
  rewrite (unchanged_since_ok _ _ Hcmp), Hnewer. simpl.
  one_request
    ([EvLog INFO "Updating Shopify product {} from Moysklad ID: {}"
                 [AStr (sh_id shopify_product); AStr (ms_id ms_product)]]
     : list (@Event Price)).
Qed.

Lemma create_moysklad_product_attempt_OneRequest shopify_product :
  let data := shopify_to_moysklad_product shopify_product in
  OneRequest (create_moysklad_product_attempt shopify_product)
    (MsCreateProduct data) (λ tr, ms_create_product remote tr data).
Proof.
  intros data s.
  unfold create_moysklad_product_attempt, bind, logger, try_except,
    moysklad_service_create_product, request, raise, ret. simpl.
  one_request
    ([EvLog INFO "Creating new Moysklad product from Shopify ID: {}"
                 [AStr (sh_id shopify_product)]]
     : list (@Event Price)).
Qed.

Lemma update_moysklad_product_attempt_OneRequest shopify_product
    moysklad_product :
  let data := ms_set_id (shopify_to_moysklad_product shopify_product)
                (ms_id moysklad_product) in
  not_newer (sh_updated_at shopify_product) (ms_updated_at moysklad_product)
  = false →
  incomparable (sh_updated_at shopify_product) (ms_updated_at moysklad_product)
  = false →
  OneRequest (update_moysklad_product_attempt shopify_product moysklad_product)
    (MsUpdateProduct data) (λ tr, ms_update_product remote tr data).
Proof.
  intros data Hnewer Hcmp s.
  unfold update_moysklad_product_attempt, bind, logger, try_except,
    moysklad_service_update_product, request, raise, ret.
  rewrite (unchanged_since_ok _ _ Hcmp), Hnewer. simpl.
  one_request
    ([EvLog INFO "Updating Moysklad product {} from Shopify ID: {}"
                 [AStr (ms_id moysklad_product); AStr (sh_id shopify_product)]]
     : list (@Event Price)).
Qed.

Lemma update_shopify_inventory_attempt_OneRequest ms_product shopify_product :
  let quantity := match ms_stock ms_product with Some q => q | None => 0%Z end in
  stock_unchanged (sh_inventory_quantity shopify_product) quantity = false →
  OneRequest (update_shopify_inventory_attempt ms_product shopify_product)
    (ShUpdateInventory (sh_id shopify_product)
       (sh_inventory_item_id shopify_product) quantity)
    (λ tr, sh_update_inventory remote tr (sh_id shopify_product)
             (sh_inventory_item_id shopify_product) quantity).
Proof.
  intros quantity Hdiffer s.
  unfold update_shopify_inventory_attempt, bind, logger, try_except,
    shopify_service_update_inventory, request, raise, ret. cbv zeta.
  fold quantity. rewrite Hdiffer. simpl.
  one_request
    ([EvLog INFO "Updating inventory for Shopify product {}"
                 [AStr (sh_id shopify_product)]]
     : list (@Event Price)).
Qed.

Lemma update_shopify_price_attempt_OneRequest product_id variant_id price :
  OneRequest (update_shopify_price_attempt product_id variant_id price)
    (ShUpdatePrice product_id variant_id price)
    (λ tr, sh_update_price remote tr product_id variant_id price).
Proof.
  intros s.
  unfold update_shopify_price_attempt, bind, logger, try_except,
    shopify_service_update_price, request, raise, ret. simpl.
  one_request (@nil (@Event Price)).
Qed.

Lemma update_moysklad_price_attempt_OneRequest product_id price :
  OneRequest (update_moysklad_price_attempt product_id price)
    (MsUpdatePrice product_id price)
    (λ tr, ms_update_price remote tr product_id price).
Proof.
  intros s.
  unfold update_moysklad_price_attempt, bind, logger, try_except,
    moysklad_service_update_price, request, raise, ret. simpl.
  one_request (@nil (@Event Price)).
Qed.

(** C6: the retry wrapper around each of the seven remote mutations of
    the service: creating and updating a product on either platform,
    setting the Shopify inventory level, and setting the price on either
    platform.  For the product updates and the inventory update the
    statement is about the runs that reach the request, that is, the runs
    in which the task does not skip.  In every such run the task makes its
    request at most three times, sleeping two seconds between two requests,
    and raises only after the third.  When the platform refuses the first
    two requests the task makes the third and no fourth: it returns what
    the third request returns, or raises tenacity's [RetryError] around the
    exception of the third request, after exactly three requests and two
    sleeps. *)
Theorem wrapped_mutations_are_retried :
  (∀ ms_product,
     let data := moysklad_to_shopify_product ms_product in
     Retried (_create_shopify_product ms_product)
       (ShCreateProduct data) (λ tr, sh_create_product remote tr data))
  ∧ (∀ ms_product shopify_product,
       let data := sh_set_id (moysklad_to_shopify_product ms_product)
                     (sh_id shopify_product) in
       not_newer (ms_updated_at ms_product) (sh_updated_at shopify_product)
       = false →
       incomparable (ms_updated_at ms_product) (sh_updated_at shopify_product)
       = false →
       Retried (_update_shopify_product ms_product shopify_product)
         (ShUpdateProduct data) (λ tr, sh_update_product remote tr data))
  ∧ (∀ shopify_product,
       let data := shopify_to_moysklad_product shopify_product in
       Retried (_create_moysklad_product shopify_product)
         (MsCreateProduct data) (λ tr, ms_create_product remote tr data))
  ∧ (∀ shopify_product moysklad_product,
       let data := ms_set_id (shopify_to_moysklad_product shopify_product)
                     (ms_id moysklad_product) in
       not_newer (sh_updated_at shopify_product) (ms_updated_at moysklad_product)
       = false →
       incomparable (sh_updated_at shopify_product)
         (ms_updated_at moysklad_product) = false →
       Retried (_update_moysklad_product shopify_product moysklad_product)
         (MsUpdateProduct data) (λ tr, ms_update_product remote tr data))
  ∧ (∀ ms_product shopify_product,
       let quantity :=
         match ms_stock ms_product with Some q => q | None => 0%Z end in
       stock_unchanged (sh_inventory_quantity shopify_product) quantity
       = false →
       Retried (_update_shopify_inventory ms_product shopify_product)
         (ShUpdateInventory (sh_id shopify_product)
            (sh_inventory_item_id shopify_product) quantity)
         (λ tr, sh_update_inventory remote tr (sh_id shopify_product)
                  (sh_inventory_item_id shopify_product) quantity))
  ∧ (∀ product_id variant_id price,
       Retried (_update_shopify_price product_id variant_id price)
         (ShUpdatePrice product_id variant_id price)
         (λ tr, sh_update_price remote tr product_id variant_id price))
  ∧ (∀ product_id price,
       Retried (_update_moysklad_price product_id price)
         (MsUpdatePrice product_id price)
         (λ tr, ms_update_price remote tr product_id price)).
Proof.
  split; [|split; [|split; [|split; [|split; [|split]]]]].
  - intros ms_product data. unfold _create_shopify_product.
    apply OneRequest_Retried, create_shopify_product_attempt_OneRequest.
  - intros ms_product shopify_product data Hnewer Hcmp.
    unfold _update_shopify_product.
    by apply OneRequest_Retried, update_shopify_product_attempt_OneRequest.
  - intros shopify_product data. unfold _create_moysklad_product.
    apply OneRequest_Retried, create_moysklad_product_attempt_OneRequest.
  - intros shopify_product moysklad_product data Hnewer Hcmp.
    unfold _update_moysklad_product.
    by apply OneRequest_Retried, update_moysklad_product_attempt_OneRequest.
  - intros ms_product shopify_product quantity Hdiffer.
    unfold _update_shopify_inventory.
    by apply OneRequest_Retried, update_shopify_inventory_attempt_OneRequest.
  - intros product_id variant_id price. unfold _update_shopify_price.
    apply OneRequest_Retried, update_shopify_price_attempt_OneRequest.
  - intros product_id price. unfold _update_moysklad_price.
    apply OneRequest_Retried, update_moysklad_price_attempt_OneRequest.
Qed.

(** *** Products without an identity key *)

Lemma List_filter_none {A} (f : A → bool) (l : list A) :
  Forall (λ x, f x = false) l → List.filter f l = [].
Proof.
  induction 1 as [|x l Hx _ IH]; simpl; [done|]. by rewrite Hx.
Qed.

(** X8: products without an identity key take no part in the
    reconciliation.  When no product of the source list has a key (the
    key is [None] or empty), either direction returns at once: it sends no
    request and does not sleep. *)
Theorem keyless_products_are_left_alone :
  (∀ moysklad_products (shopify_by_sku : gmap string ShopifyProduct) s,
     Forall (λ p, truthy (ms_code p) = false) moysklad_products →
     let run := _sync_moysklad_to_shopify moysklad_products shopify_by_sku in
     (run s).1 = Ok tt
     ∧ ∃ evs, Extends s evs (run s).2
              ∧ calls_of evs = [] ∧ sleeps_of evs = [])
  ∧ (∀ shopify_products (moysklad_by_code : gmap string MoyskladProduct) s,
       Forall (λ p, truthy (sh_sku p) = false) shopify_products →
       let run := _sync_shopify_to_moysklad shopify_products moysklad_by_code in
       (run s).1 = Ok tt
       ∧ ∃ evs, Extends s evs (run s).2
                ∧ calls_of evs = [] ∧ sleeps_of evs = []).
Proof.
  split.
  - intros products index s Hnone run. subst run.
    unfold _sync_moysklad_to_shopify. cbv zeta.
    rewrite (List_filter_none _ _ Hnone). simpl.
    unfold bind, logger, ret. simpl. split; [done|].
    eexists. split;
      [unfold Extends; simpl; rewrite <- ?app_assoc; simpl; reflexivity|].
    by split.
  - intros products index s Hnone run. subst run.
    unfold _sync_shopify_to_moysklad. cbv zeta.
    rewrite (List_filter_none _ _ Hnone). simpl.
    unfold bind, logger, ret. simpl. split; [done|].
    eexists. split;
      [unfold Extends; simpl; rewrite <- ?app_assoc; simpl; reflexivity|].
    by split.
Qed.

(** *** A run stops at the first phase that fails *)

Lemma run_complete_sync_fails_at_fetch s :
  (∀ tr flag since,
     is_ok (ms_get_all_products remote tr flag since) = false) →
  ∃ e s' evs,
    run_complete_sync s = (Raise e, s')
    ∧ Extends s evs s'
    ∧ calls_of evs = [MsGetAllProducts false None]
    ∧ last_sync_time s' = last_sync_time s.
Proof.
  intros Hdown.
  unfold run_complete_sync, sync_products, products_modified_since,
    try_except, bind, datetime_now, logger, get_last_sync_time,
    moysklad_service_get_all_products, request, raise, ret.
  simpl.
  lazymatch goal with
  | |- context [ms_get_all_products remote ?tr ?f ?m] =>
      pose proof (Hdown tr f m) as Hfail;
      destruct (ms_get_all_products remote tr f m) as [l|e] eqn:Hms;
      [discriminate|]
  end.
  exists e. destruct e; simpl;
    (eexists _, _; split; [reflexivity|]; split;
     [unfold Extends; simpl; rewrite <- ?app_assoc; simpl; reflexivity
     |split; reflexivity]).
Qed.

Lemma run_incremental_sync_fails_at_fetch s :
  (∀ tr flag since,
     is_ok (ms_get_all_products remote tr flag since) = false) →
  ∃ e since s' evs,
    run_incremental_sync s = (Raise e, s')
    ∧ Extends s evs s'
    ∧ calls_of evs = [MsGetAllProducts false (Some since)]
    ∧ last_sync_time s' = last_sync_time s.
Proof.
  intros Hdown.
  unfold run_incremental_sync, sync_products, products_modified_since,
    try_except, bind, datetime_now, logger, get_last_sync_time,
    moysklad_service_get_all_products, request, raise, ret.
  simpl.
  destruct (last_sync_time s) as [t|] eqn:Hlast; simpl;
    lazymatch goal with
    | |- context [ms_get_all_products remote ?tr ?f ?m] =>
        pose proof (Hdown tr f m) as Hfail;
        destruct (ms_get_all_products remote tr f m) as [l|e] eqn:Hms;
        [discriminate|]
    end;
    exists e; destruct e; simpl;
    (eexists _, _, _; split; [reflexivity|]; split;
     [unfold Extends; simpl; rewrite <- ?app_assoc; simpl; reflexivity
     |split; [reflexivity|done]]).
Qed.

(** X9: when Moysklad does not list its catalog, a complete run and an
    incremental run end in the products phase: the run raises after this
    one request, the inventory and the price phase are not started, and
    the watermark stays as it was. *)
Theorem run_stops_when_products_phase_fails s :
  (∀ tr flag since,
     is_ok (ms_get_all_products remote tr flag since) = false) →
  (∃ e, (run_complete_sync s).1 = Raise e
        ∧ Sends run_complete_sync s [MsGetAllProducts false None]
        ∧ last_sync_time (run_complete_sync s).2 = last_sync_time s)
  ∧ (∃ e since,
       (run_incremental_sync s).1 = Raise e
       ∧ Sends run_incremental_sync s [MsGetAllProducts false (Some since)]
       ∧ last_sync_time (run_incremental_sync s).2 = last_sync_time s).
Proof.
  intros Hdown. split.
  - destruct (run_complete_sync_fails_at_fetch s Hdown)
      as (e & s' & evs & Hrun & Hext & Hcalls & Hlast).
    exists e. unfold Sends. rewrite Hrun. simpl.
    split; [done|]. split; [by exists evs|done].
  - destruct (run_incremental_sync_fails_at_fetch s Hdown)
      as (e & since & s' & evs & Hrun & Hext & Hcalls & Hlast).
    exists e, since. unfold Sends. rewrite Hrun. simpl.
    split; [done|]. split; [by exists evs|done].
Qed.

(** *** The catalog requests of the products phase *)

Lemma Emits_directions_no_fetch moysklad_products shopify_products
    (moysklad_by_code : gmap string MoyskladProduct)
    (shopify_by_sku : gmap string ShopifyProduct) :
  Emits (λ c, ¬ is_fetch c)
    (gather2 (_sync_moysklad_to_shopify moysklad_products shopify_by_sku)
             (_sync_shopify_to_moysklad shopify_products moysklad_by_code)).
Proof.
  apply Emits_gather2.
  - eapply Emits_weaken; [|apply Emits_sync_moysklad_to_shopify].
    intros c (p & _ & _ & Hc).
    destruct (dict_get _ _); [destruct Hc as [-> _]|subst c]; by intros [].
  - eapply Emits_weaken; [|apply Emits_sync_shopify_to_moysklad].
    intros c (p & _ & _ & Hc).
    destruct (dict_get _ _); [destruct Hc as [-> _]|subst c]; by intros [].
Qed.

(** Finishes a case of the theorem below: the two directions have run
    from a state whose trace is known. *)
Ltac after_directions :=
  lazymatch goal with
  | |- context [gather2 (_sync_moysklad_to_shopify ?mps ?sidx)
                  (_sync_shopify_to_moysklad ?sps ?midx) ?st] =>
      let Hfoot := fresh "Hfoot" in
      pose proof (Emits_directions_no_fetch mps sps midx sidx st) as Hfoot;
      simpl in Hfoot;
      destruct (gather2 (_sync_moysklad_to_shopify mps sidx)
                  (_sync_shopify_to_moysklad sps midx) st) as [[r|e] s2];
      [|destruct e; discriminate];
      destruct Hfoot as [_ (evs & Hext & Hrest)];
      simpl in Hext;
      simpl; intros _; exists (calls_of evs); split; [|exact Hrest];
      eexists; split;
      [unfold Extends in *; simpl; rewrite Hext; simpl;
       rewrite <- ?app_assoc; simpl; reflexivity
      |unfold calls_of; simpl; rewrite omap_app; simpl;
       rewrite app_nil_r; reflexivity]
  end.

(** X10: the catalog requests of a products phase that returns.  They
    come first, before any create or update request, and no catalog is
    requested again afterwards.  A full sync asks each platform once,
    without a cutoff.  An incremental sync asks each platform twice:
    first with the cutoff (the watermark, or 24 hours before the second
    reading of the clock when there is no watermark), for the products to
    reconcile, and then without a cutoff, for the indexes the counterparts
    are looked up in. *)
Theorem products_phase_fetches full_sync s :
  (sync_products full_sync s).1 = Ok tt →
  let since :=
    if full_sync then None
    else Some (match last_sync_time s with
               | Some t => t
               | None => wall_clock (S (ticks s)) - timedelta_hours 24
               end)%Z in
  ∃ rest,
    Sends (sync_products full_sync) s
      ([MsGetAllProducts false since; ShGetAllProducts false since]
       ++ (if full_sync then []
           else [MsGetAllProducts false None; ShGetAllProducts false None])
       ++ rest)
    ∧ Forall (λ c, ¬ is_fetch c) rest.
Proof.
  unfold Sends.
  unfold sync_products, products_modified_since,
    try_except, bind, datetime_now, logger, get_last_sync_time,
    assign_last_sync_time, moysklad_service_get_all_products,
    shopify_service_get_all_products, request, raise, ret.
  destruct full_sync; [|destruct (last_sync_time s) as [t|] eqn:Hlast];
    simpl.
  - destruct (ms_get_all_products _ _ _ _) as [mp|e];
      [|destruct e; discriminate]. simpl.
    destruct (sh_get_all_products _ _ _ _) as [sp|e];
      [|destruct e; discriminate]. simpl.
    after_directions.
  - destruct (ms_get_all_products _ _ _ _) as [mp|e];
      [|destruct e; discriminate]. simpl.
    destruct (sh_get_all_products _ _ _ _) as [sp|e];
      [|destruct e; discriminate]. simpl.
    destruct (ms_get_all_products _ _ _ _) as [mp'|e];
      [|destruct e; discriminate]. simpl.
    destruct (sh_get_all_products _ _ _ _) as [sp'|e];
      [|destruct e; discriminate]. simpl.
    after_directions.
  - destruct (ms_get_all_products _ _ _ _) as [mp|e];
      [|destruct e; discriminate]. simpl.
    destruct (sh_get_all_products _ _ _ _) as [sp|e];
      [|destruct e; discriminate]. simpl.
    destruct (ms_get_all_products _ _ _ _) as [mp'|e];
      [|destruct e; discriminate]. simpl.
    destruct (sh_get_all_products _ _ _ _) as [sp'|e];
      [|destruct e; discriminate]. simpl.
    after_directions.
Qed.

(** *** The phases of an incremental run, one after the other *)

Lemma Grows_Emits {A} P (m : M State A) : Emits P m → Grows m.
Proof. intros Hm s. destruct (Hm s) as [_ (evs & He & _)]. by exists evs. Qed.

Lemma Grows_bind {A B} (m : M (@State Price) A) (k : A → M State B) :
  Grows m → (∀ a, Grows (k a)) → Grows (bind m k).
Proof.
  intros Hm Hk s. unfold bind. destruct (Hm s) as (evs1 & He1).
  destruct (m s) as [[a|e] s1]; simpl in *; [|by exists evs1].
  destruct (Hk a s1) as (evs2 & He2).
  exists (evs1 ++ evs2). by eapply Extends_trans.
Qed.

Lemma Grows_try_except {A} (body : M (@State Price) A) handler :
  Grows body → (∀ e, Grows (handler e)) → Grows (try_except body handler).
Proof.
  intros Hm Hk s. unfold try_except. destruct (Hm s) as (evs1 & He1).
  destruct (body s) as [[a|e] s1]; simpl in *; [by exists evs1|].
  destruct (Hk e s1) as (evs2 & He2).
  exists (evs1 ++ evs2). by eapply Extends_trans.
Qed.

Lemma Grows_assign_last_sync_time t :
  Grows (assign_last_sync_time (Price:=Price) t).
Proof. intros s. exists []. unfold Extends. simpl. by rewrite app_nil_r. Qed.

Lemma Grows_sync_products full_sync : Grows (sync_products full_sync).
Proof.
  unfold sync_products. cbv zeta.
  repeat lazymatch goal with
  | |- Grows (try_except _ _) => apply Grows_try_except
  | |- Grows (assign_last_sync_time _) => apply Grows_assign_last_sync_time
  | |- Grows (bind _ _) => apply Grows_bind
  | |- Grows (match ?e with MoyskladError _ => _ | _ => _ end) => destruct e
  | |- Grows _ => apply (Grows_Emits (@any_request Price)); solve [emits_any]
  | |- ∀ _, _ => intro
  end.
Qed.

Ltac emits_inventory :=
  cbv beta zeta;
  repeat lazymatch goal with
  | |- Emits _ (moysklad_service_get_all_products _ _) =>
      apply Emits_get_all_moysklad; reflexivity
  | |- Emits _ (shopify_service_get_all_products _ _) =>
      apply Emits_get_all_shopify; split; reflexivity
  | |- Emits _ (phase_modified_since _ _) =>
      apply Emits_phase_modified_since
  | |- Emits _ (_execute_tasks_with_limited_concurrency _) =>
      apply Emits_execute_tasks, Forall_Emits_map; intros [? ?];
      eapply Emits_weaken; [|apply Emits_update_shopify_inventory];
      by intros ? [-> _]
  | _ => emits_step
  end.

(** The inventory phase sends the request for the Moysklad catalog, cut
    off at the watermark unless the sync is full. *)
Lemma inventory_phase_first_request full_sync s :
  ∃ evs,
    Extends s evs (sync_product_inventory full_sync s).2
    ∧ MsGetAllProducts true
        (if full_sync then None else last_sync_time s) ∈ calls_of evs.
Proof.
  destruct full_sync, (last_sync_time s) as [t|] eqn:Hlast;
    unfold sync_product_inventory, try_except;
    (erewrite bind_ok by reflexivity); cbv beta;
    (erewrite bind_ok by reflexivity); cbv beta;
    (erewrite (bind_ok (phase_modified_since _ _))
       by (unfold phase_modified_since, bind, get_last_sync_time, logger, ret;
           simpl; rewrite ?Hlast; reflexivity)); cbv beta.
  all: lazymatch goal with
       | |- context [bind (moysklad_service_get_all_products ?ws ?since) ?k ?st] =>
           destruct (ms_get_all_products remote (trace st) ws since)
             as [mp|e] eqn:Hans;
           [ erewrite (bind_ok (moysklad_service_get_all_products ws since))
               by (unfold moysklad_service_get_all_products, request;
                   cbv beta; rewrite Hans; reflexivity);
             assert (Hk : Emits inventory_phase_request (k mp))
               by emits_inventory
           | erewrite (bind_raise (moysklad_service_get_all_products ws since))
               by (unfold moysklad_service_get_all_products, request;
                   cbv beta; rewrite Hans; reflexivity) ]
       end.
  all: cbv beta.
  all: try lazymatch goal with
       | |- context [match ?run with pair _ _ => _ end] =>
           lazymatch run with
           | ?m ?st =>
               destruct (Hk st) as [_ (evs & Hext & _)]; cbv beta in Hext;
               destruct run as [[r|e] sf]
           end
       end.
  all: unfold bind, logger, raise, Extends in *; simpl in *;
    rewrite ?Hext; eexists;
    (split;
     [rewrite <- ?app_assoc; simpl; reflexivity
     |unfold calls_of; simpl; constructor]).
Qed.

(** X11: the cutoff of the inventory phase in an incremental run.  With
    both catalogs reachable, [run_incremental_sync] sends the inventory
    phase's request for the Moysklad catalog with [modified_since] equal
    to the start time of the products phase of this same run (the second
    reading of the clock in the run): the products phase has just made
    that time the watermark, and the inventory phase reads it back. *)
Theorem incremental_run_inventory_cutoff s :
  catalogs_reachable →
  ∃ evs,
    Extends s evs (run_incremental_sync s).2
    ∧ MsGetAllProducts true (Some (wall_clock (S (ticks s)))) ∈ calls_of evs.
Proof.
  intros Hreach. unfold run_incremental_sync, try_except.
  erewrite bind_ok by reflexivity. cbv beta.
  erewrite bind_ok by reflexivity. cbv beta.
  lazymatch goal with
  | |- context [bind (sync_products false) ?k ?st] =>
      destruct (Returns_sync_products Hreach false st) as [[] Hok];
      pose proof (sync_products_marks false st) as Hmark;
      destruct (Grows_sync_products false st) as (evsP & HeP);
      destruct (sync_products false st) as [[[]|e] s2] eqn:HrunP;
      [|discriminate];
      erewrite (bind_ok (sync_products false)) by exact HrunP
  end.
  cbv beta. simpl in Hmark, HeP.
  lazymatch goal with
  | |- context [bind (sync_product_inventory false) ?k ?st] =>
      destruct (Returns_sync_product_inventory Hreach false st) as [[] Hok2];
      destruct (inventory_phase_first_request false st) as (evsI & HeI & Hin);
      destruct (sync_product_inventory false st) as [[[]|e] s3] eqn:HrunI;
      [|discriminate];
      erewrite (bind_ok (sync_product_inventory false)) by exact HrunI
  end.
  cbv beta. simpl in HeI. rewrite Hmark in Hin.
  lazymatch goal with
  | |- context [bind (sync_product_prices false) ?k ?st] =>
      destruct (Returns_sync_product_prices Hreach false st) as [[] Hok3];
      destruct (Emits_sync_product_prices false st) as [_ (evsR & HeR & _)];
      destruct (sync_product_prices false st) as [[[]|e] s4] eqn:HrunR;
      [|discriminate];
      erewrite (bind_ok (sync_product_prices false)) by exact HrunR
  end.
  cbv beta. simpl in HeR.
  unfold bind, datetime_now, logger, Extends in *. simpl in *.
  rewrite HeR, HeI, HeP.
  eexists. split; [rewrite <- ?app_assoc; simpl; reflexivity|].
  change (?a :: ?l) with ([a] ++ l).
  rewrite !calls_of_app. set_solver.
Qed.

(** *** Catalogs that already agree *)

Lemma Footprint_nothing P s s' :
  (∀ c, P c → False) → Footprint P s s' →
  ∃ evs, Extends s evs s' ∧ calls_of evs = [].
Proof.
  intros HP [_ (evs & He & Hall)]. exists evs. split; [done|].
  destruct (calls_of evs) as [|c cs]; [done|].
  apply Forall_cons in Hall as [Hc _]. destruct (HP c Hc).
Qed.

(** X12: reconciliation of catalogs that already agree.  When every
    source product with an identity key has a counterpart in the target
    index and carries, like its counterpart, an [updated_at] that is not
    later than the counterpart's, the direction sends no request at all
    and returns. *)
Theorem up_to_date_products_send_nothing :
  (∀ moysklad_products (shopify_by_sku : gmap string ShopifyProduct) s,
     (∀ p, p ∈ moysklad_products → truthy (ms_code p) = true →
           ∃ sp, dict_get shopify_by_sku (ms_code p) = Some sp
                 ∧ not_newer (ms_updated_at p) (sh_updated_at sp) = true) →
     (_sync_moysklad_to_shopify moysklad_products shopify_by_sku s).1 = Ok tt
     ∧ Sends (_sync_moysklad_to_shopify moysklad_products shopify_by_sku) s [])
  ∧ (∀ shopify_products (moysklad_by_code : gmap string MoyskladProduct) s,
       (∀ p, p ∈ shopify_products → truthy (sh_sku p) = true →
             ∃ mp, dict_get moysklad_by_code (sh_sku p) = Some mp
                   ∧ not_newer (sh_updated_at p) (ms_updated_at mp) = true) →
       (_sync_shopify_to_moysklad shopify_products moysklad_by_code s).1
       = Ok tt
       ∧ Sends (_sync_shopify_to_moysklad shopify_products moysklad_by_code)
           s []).
Proof.
  split.
  - intros products index s Hsync. split.
    + by destruct (Returns_sync_moysklad_to_shopify products index s) as [[] ->].
    + eapply Footprint_nothing; [|apply Emits_sync_moysklad_to_shopify].
      intros c (p & Hin & Hkey & Hc).
      destruct (Hsync p Hin Hkey) as (sp & Hget & Hnewer).
      rewrite Hget in Hc. destruct Hc as (_ & Hc & _). congruence.
  - intros products index s Hsync. split.
    + by destruct (Returns_sync_shopify_to_moysklad products index s) as [[] ->].
    + eapply Footprint_nothing; [|apply Emits_sync_shopify_to_moysklad].
      intros c (p & Hin & Hkey & Hc).
      destruct (Hsync p Hin Hkey) as (mp & Hget & Hnewer).
      rewrite Hget in Hc. destruct Hc as (_ & Hc & _). congruence.
Qed.

Lemma Emits_nothing_price_batches {X} (pairs : list X)
    (task : X → list (M State unit)) (batch_size : nat) (template : string)
    (before : M State unit) :
  (∀ pair, pair ∈ pairs → task pair = []) →
  Emits (λ _ : @RemoteCall Price, False) before →
  Emits (λ _ : @RemoteCall Price, False)
    (before ;;;
     for_each (range_step (length pairs) batch_size)
       (λ i _,
          let batch := slice pairs i (i + batch_size) in
          logger INFO template
            [ANat (i / batch_size + 1);
             ANat ((length pairs + batch_size - 1) / batch_size);
             ANat (length batch)] ;;;
          run_price_batch (concat (map task batch)))
       tt).
Proof.
  intros Hnone Hbefore. cbv zeta.
  apply Emits_bind; [exact Hbefore|]. intros _.
  apply Emits_for_each. intros i _.
  apply Emits_bind; [apply Emits_logger|]. intros _.
  apply Emits_run_price_batch, Forall_Emits_concat_map_in.
  intros pair Hin%elem_of_slice. rewrite (Hnone pair Hin). constructor.
Qed.

(** X13: price sync of catalogs whose prices already agree.  When every
    matched pair of the Moysklad-to-Shopify direction has the same stored
    price on both sides, the direction sends no request; when in every
    matched pair of the Shopify-to-Moysklad direction the Moysklad price
    is the Shopify price taken through [price_to_moysklad_format], that
    direction sends no request. *)
Theorem agreeing_prices_send_nothing :
  (∀ moysklad_products (shopify_by_sku : gmap string ShopifyProduct)
     batch_size s,
     (∀ ms_product shopify_product,
        (ms_product, shopify_product)
          ∈ moysklad_price_pairs moysklad_products shopify_by_sku →
        sh_price shopify_product = ms_price ms_product) →
     Sends (_sync_prices_moysklad_to_shopify moysklad_products shopify_by_sku
              batch_size) s [])
  ∧ (∀ shopify_products (moysklad_by_code : gmap string MoyskladProduct)
       batch_size s,
       (∀ shopify_product moysklad_product,
          (shopify_product, moysklad_product)
            ∈ shopify_price_pairs shopify_products moysklad_by_code →
          ms_price moysklad_product
          = price_to_moysklad_format <$> sh_price shopify_product) →
       Sends (_sync_prices_shopify_to_moysklad shopify_products
                moysklad_by_code batch_size) s []).
Proof.
  split.
  - intros products index batch_size s Hsame.
    apply (Footprint_nothing (λ _, False)); [by intros c []|].
    revert s.
    change (Emits (λ _ : @RemoteCall Price, False)
              (_sync_prices_moysklad_to_shopify products index batch_size)).
    unfold _sync_prices_moysklad_to_shopify. cbv zeta.
    apply Emits_bind; [apply Emits_logger|]. intros _.
    apply (Emits_nothing_price_batches _ moysklad_price_task);
      [|apply Emits_logger].
    intros [ms sp] Hin. unfold moysklad_price_task.
    rewrite (Hsame ms sp Hin).
    assert (price_ne (ms_price ms) (ms_price ms) = false) as ->; [|done].
    by apply price_ne_false.
  - intros products index batch_size s Hsame.
    apply (Footprint_nothing (λ _, False)); [by intros c []|].
    revert s.
    change (Emits (λ _ : @RemoteCall Price, False)
              (_sync_prices_shopify_to_moysklad products index batch_size)).
    unfold _sync_prices_shopify_to_moysklad. cbv zeta.
    apply Emits_bind; [apply Emits_logger|]. intros _.
    apply (Emits_nothing_price_batches _ shopify_price_task);
      [|apply Emits_logger].
    intros [sp mp] Hin. unfold shopify_price_task.
    rewrite (Hsame sp mp Hin).
    destruct (sh_price sp) as [price|]; [|done]. simpl.
    assert (price_ne (Some (price_to_moysklad_format price))
              (Some (price_to_moysklad_format price)) = false) as ->; [|done].
    by apply price_ne_false.
Qed.

End ServiceProperties.

Lemma wrapped_mutations_are_retried_witness :
  let env := example_collaborators flaky_remote "moysklad_to_shopify" in
  let data := example_to_shopify product_A in
  let update := sh_set_id (example_to_shopify product_A) (sh_id product_C) in
  ((∀ evs, length (calls_of evs) = 0%nat →
           sh_create_product flaky_remote (trace fresh_state ++ evs) data
           = Raise (ShopifyError "503 Service Unavailable"))
   ∧ (∀ evs, length (calls_of evs) = 1%nat →
             sh_create_product flaky_remote (trace fresh_state ++ evs) data
             = Raise (ShopifyError "503 Service Unavailable"))
   ∧ (∀ evs, length (calls_of evs) = 2%nat →
             sh_create_product flaky_remote (trace fresh_state ++ evs) data
             = Ok data)
   ∧ ∃ evs s',
       _create_shopify_product (H:=env) product_A fresh_state = (Ok data, s')
       ∧ Extends fresh_state evs s'
       ∧ calls_of evs
         = [ShCreateProduct data; ShCreateProduct data; ShCreateProduct data]
       ∧ sleeps_of evs = [2000%nat; 2000%nat])
  ∧ (not_newer (ms_updated_at product_A) (sh_updated_at product_C) = false
     ∧ incomparable (ms_updated_at product_A) (sh_updated_at product_C) = false
     ∧ Retried (_update_shopify_product (H:=env) product_A product_C)
         (ShUpdateProduct update)
         (λ tr, sh_update_product flaky_remote tr update)).
Proof.
  intros env data update.
  assert (H0 : ∀ evs, length (calls_of evs) = 0%nat →
                 sh_create_product flaky_remote (trace fresh_state ++ evs) data
                 = Raise (ShopifyError "503 Service Unavailable")).
  { intros evs Hn. simpl. by rewrite Hn. }
  assert (H1 : ∀ evs, length (calls_of evs) = 1%nat →
                 sh_create_product flaky_remote (trace fresh_state ++ evs) data
                 = Raise (ShopifyError "503 Service Unavailable")).
  { intros evs Hn. simpl. by rewrite Hn. }
  assert (H2 : ∀ evs, length (calls_of evs) = 2%nat →
                 sh_create_product flaky_remote (trace fresh_state ++ evs) data
                 = Ok data).
  { intros evs Hn. simpl. by rewrite Hn. }
  pose proof (wrapped_mutations_are_retried (H:=env))
    as (Hcreate & Hupdate & _).
  split.
  - split; [exact H0|]. split; [exact H1|]. split; [exact H2|].
    exact (proj2 (Hcreate product_A) fresh_state _ _ (Ok data) H0 H1 H2).
  - split; [reflexivity|]. split; [reflexivity|].
    exact (Hupdate product_A product_C eq_refl eq_refl).
Defined.

(** ** The properties on concrete runs *)

(** C5 at its failing input: a first incremental run, before any watermark
    exists.  The inventory and the price phase ask both platforms for
    everything ([modified_since] is [None]); only the products phase asks
    for the last 24 hours. *)
Theorem first_incremental_run_cutoffs :
  let env := example_collaborators (steady_remote [] []) "moysklad_to_shopify" in
  calls_of (trace (sync_product_inventory (H:=env) false fresh_state).2)
  = [MsGetAllProducts true None; ShGetAllProducts true None]
  ∧ calls_of (trace (sync_product_prices (H:=env) false fresh_state).2)
    = [MsGetAllProducts false None; ShGetAllProducts false None]
  ∧ calls_of (trace (sync_products (H:=env) false fresh_state).2)
    = [MsGetAllProducts false
         (Some (example_clock 1 - timedelta_hours 24)%Z);
       ShGetAllProducts false
         (Some (example_clock 1 - timedelta_hours 24)%Z);
       MsGetAllProducts false None; ShGetAllProducts false None].
Proof. intros env. repeat split; vm_compute; reflexivity. Qed.

Lemma sync_products_watermark_witness :
  let env := example_collaborators unreachable_remote "moysklad_to_shopify" in
  ((∀ tr since,
      is_ok (ms_get_all_products unreachable_remote tr false since) = false)
   ∨ (∀ tr since,
        is_ok (sh_get_all_products unreachable_remote tr false since) = false))
  ∧ ∃ e s',
      sync_products (H:=env) false synced_state = (Raise e, s')
      ∧ last_sync_time s' = Some 1699990000000000%Z.
Proof.
  intros env.
  assert (Hdown :
            (∀ tr since,
               is_ok (ms_get_all_products unreachable_remote tr false since)
               = false)
            ∨ (∀ tr since,
                 is_ok (sh_get_all_products unreachable_remote tr false since)
                 = false)).
  { left. reflexivity. }
  split; [exact Hdown|].
  exact (proj1 (proj2 (sync_products_watermark (H:=env) false synced_state))
           Hdown).
Defined.

Lemma undated_record_is_not_updated_witness :
  let env := example_collaborators (steady_remote [] []) "moysklad_to_shopify" in
  let index := index_by sh_sku [product_C] in
  truthy (ms_code product_A_undated) = true
  ∧ dict_get index (ms_code product_A_undated) = Some product_C
  ∧ ms_updated_at product_A_undated = Holds None
  ∧ sh_updated_at product_C = Holds (Some 10%Z)
  ∧ (@None Z = None ∨ Some 10%Z = None)
  ∧ ∃ evs s',
      _sync_moysklad_to_shopify (H:=env) [product_A_undated] index fresh_state
      = (Ok tt, s')
      ∧ Extends fresh_state evs s'
      ∧ calls_of evs = []
      ∧ sleeps_of evs = [2000; 2000; 500]%nat
      ∧ EvLog ERROR "Task {} failed: {}"
          [ANat 0;
           AExc (RetryError
                   (OtherException
                      "'<=' not supported between instances of 'NoneType' and 'datetime.datetime'"))]
        ∈ evs.
Proof.
  intros env index.
  assert (dict_get index (ms_code product_A_undated) = Some product_C)
    as Hget by (vm_compute; reflexivity).
  split; [reflexivity|]. split; [exact Hget|].
  split; [reflexivity|]. split; [reflexivity|]. split; [by left|].
  exact (proj1 (undated_record_is_not_updated (H:=env))
           product_A_undated product_C index None (Some 10%Z) fresh_state
           eq_refl Hget eq_refl eq_refl (or_introl eq_refl)).
Defined.

Lemma update_payload_keeps_target_id_witness :
  let env := example_collaborators (steady_remote [] []) "moysklad_to_shopify" in
  let run :=
    _sync_moysklad_to_shopify (H:=env) [product_A; product_B]
      (index_by sh_sku [product_C]) fresh_state in
  let data := sh_set_id (example_to_shopify product_A) "gid-X1" in
  Extends fresh_state (trace run.2) run.2
  ∧ ShUpdateProduct data ∈ calls_of (trace run.2)
  ∧ ∃ ms_product key shopify_product,
      ms_product ∈ [product_A; product_B]
      ∧ ms_code ms_product = Some key
      ∧ index_by sh_sku [product_C] !! key = Some shopify_product
      ∧ data = sh_set_id (example_to_shopify ms_product) (sh_id shopify_product)
      ∧ sh_id data = sh_id shopify_product.
Proof.
  intros env run data.
  assert (Hext : Extends fresh_state (trace run.2) run.2) by reflexivity.
  assert (Hin : ShUpdateProduct data ∈ calls_of (trace run.2)).
  { assert (calls_of (trace run.2)
            = [ShUpdateProduct data;
               ShCreateProduct (example_to_shopify product_B)]) as ->
      by (vm_compute; reflexivity).
    constructor. }
  split; [exact Hext|]. split; [exact Hin|].
  exact (proj1 (update_payload_keeps_target_id (H:=env))
           [product_A; product_B] (index_by sh_sku [product_C])
           fresh_state (trace run.2) data Hext Hin).
Defined.

Lemma inventory_update_only_on_difference_witness :
  let env := example_collaborators (steady_remote [] []) "moysklad_to_shopify" in
  (sh_inventory_quantity product_C = Some 4%Z
   ∧ (_update_shopify_inventory (H:=env) product_A product_C fresh_state).1
     = Ok tt
   ∧ Sends (_update_shopify_inventory (H:=env) product_A product_C)
       fresh_state [])
  ∧ (sh_inventory_quantity product_C_low_stock ≠ Some 4%Z
     ∧ ∃ k, (1 ≤ k ≤ 3)%nat
            ∧ Sends
                (_update_shopify_inventory (H:=env) product_A
                   product_C_low_stock)
                fresh_state
                (replicate k (ShUpdateInventory "gid-X1" "item-X1" 4%Z))).
Proof.
  intros env. split.
  - split; [reflexivity|].
    exact (proj1 (inventory_update_only_on_difference (H:=env)
                    product_A product_C fresh_state) eq_refl).
  - assert (sh_inventory_quantity product_C_low_stock ≠ Some 4%Z) as Hne
      by discriminate.
    split; [exact Hne|].
    exact (proj1 (proj2 (inventory_update_only_on_difference (H:=env)
                           product_A product_C_low_stock fresh_state)) Hne).
Defined.


Lemma moysklad_to_shopify_price_sync_skips_conversion_witness :
  let env := example_collaborators (steady_remote [] []) "moysklad_to_shopify" in
  sh_price product_C = Some 1999%Z
  ∧ ms_price product_A_hundredths = Some (1999 * 100)%Z
  ∧ (1999 * 100)%Z ≠ 1999%Z
  ∧ shopify_price_task (H:=env) (product_C, product_A_hundredths) = []
  ∧ ∃ task k,
      moysklad_price_task (H:=env) (product_A_hundredths, product_C) = [task]
      ∧ (1 ≤ k ≤ 3)%nat
      ∧ Sends task fresh_state
          (replicate k (ShUpdatePrice "gid-X1" "variant-X1" (1999 * 100)%Z)).
Proof.
  intros env.
  assert (H1 : sh_price product_C = Some 1999%Z) by reflexivity.
  assert (H2 : ms_price product_A_hundredths = Some (1999 * 100)%Z)
    by reflexivity.
  assert (H3 : (1999 * 100)%Z ≠ 1999%Z) by lia.
  split; [exact H1|]. split; [exact H2|]. split; [exact H3|].
  exact (moysklad_to_shopify_price_sync_skips_conversion (H:=env)
           product_A_hundredths product_C 1999%Z fresh_state H1 H2 H3).
Defined.

(** ** Further properties of the service *)

(** *** The identity-keyed index *)

Section IndexProperties.
Context {V : Type} (key : V → option string).

Lemma index_by_snoc (products : list V) (p : V) :
  index_by key (products ++ [p])
  = match key p with
    | Some k => if truthy (key p) then <[k := p]> (index_by key products)
                else index_by key products
    | None => index_by key products
    end.
Proof. unfold index_by. by rewrite foldl_snoc. Qed.

Lemma truthy_Some (k : string) : truthy (Some k) = true ↔ k ≠ "".
Proof.
  simpl. rewrite negb_true_iff. split.
  - intros Hne ->. by rewrite String.eqb_refl in Hne.
  - intros Hne. by apply String.eqb_neq.
Qed.

(** X1: what the dictionary comprehension [{p.code: p for p in products
    if p.code}] answers.  Under a non-empty key it holds the last product
    of the list that carries this key (a later product overwrites an
    earlier one with the same key), and nothing when no product carries
    it; the empty key is never an entry. *)
Theorem index_by_lookup (products : list V) (k : string) :
  index_by key products !! k
  = if decide (k = "") then None
    else last (filter (λ p, key p = Some k) products).
Proof.
  induction products as [|p products IH] using rev_ind.
  - unfold index_by. simpl. rewrite lookup_empty. by case_decide.
  - rewrite index_by_snoc, filter_app.
    destruct (key p) as [k'|] eqn:Hkey.
    + destruct (truthy (Some k')) eqn:Htruthy.
      * apply truthy_Some in Htruthy.
        destruct (decide (k' = k)) as [->|Hne].
        -- rewrite lookup_insert_eq. rewrite decide_False by done.
           rewrite filter_cons_True by done. by rewrite filter_nil, last_snoc.
        -- rewrite lookup_insert_ne by done. rewrite IH.
           rewrite filter_cons_False by congruence.
           by rewrite filter_nil, app_nil_r.
      * rewrite IH. case_decide as Hk; [done|].
        assert (k' = "") as ->.
        { destruct (decide (k' = "")) as [|Hne]; [done|].
          apply truthy_Some in Hne. congruence. }
        rewrite filter_cons_False by congruence.
        by rewrite filter_nil, app_nil_r.
    + rewrite IH. rewrite filter_cons_False by congruence.
      by rewrite filter_nil, app_nil_r.
Qed.
End IndexProperties.

(** *** Batches *)

Lemma slice_from_multiple {A} (l : list A) (a step : nat) :
  slice l (a * step) (a * step + step) = take step (drop (a * step) l).
Proof. unfold slice. f_equal. lia. Qed.

Lemma batches_from {A} (l : list A) (step n a : nat) :
  concat (map (λ i, slice l i (i + step))
            (map (λ k, k * step)%nat (seq a n)))
  = take (n * step) (drop (a * step) l).
Proof.
  revert a. induction n as [|n IH]; intros a.
  - by rewrite take_0.
  - cbn [seq map concat]. rewrite IH, slice_from_multiple.
    replace (S n * step)%nat with (step + n * step)%nat by lia.
    rewrite <- take_take_drop, drop_drop.
    do 3 f_equal. lia.
Qed.

(** X2: the batch loop [for i in range(0, len(l), step): batch =
    l[i:i+step]] with a positive step.  The batches, one after the other,
    are the list itself: nothing is dropped, repeated or reordered.  Every
    batch has at least one and at most [step] elements. *)
Theorem batches_partition {A} (l : list A) (step : nat) :
  (0 < step)%nat →
  let batches :=
    map (λ i, slice l i (i + step)) (range_step (length l) step) in
  concat batches = l
  ∧ Forall (λ batch, (1 ≤ length batch ≤ step)%nat) batches.
Proof.
  intros Hstep batches. subst batches. unfold range_step. split.
  - rewrite batches_from. simpl. rewrite drop_0. apply take_ge.
    pose proof (Nat.div_mod_eq (length l + step - 1) step) as Hdiv.
    pose proof (Nat.mod_upper_bound (length l + step - 1) step) as Hmod.
    nia.
  - rewrite !Forall_map. apply Forall_forall. intros k Hk.
    apply elem_of_seq in Hk as [_ Hk]. simpl in Hk.
    rewrite slice_from_multiple, length_take, length_drop.
    assert (k * step < length l)%nat; [|lia].
    pose proof (Nat.div_mod_eq (length l + step - 1) step) as Hdiv.
    pose proof (Nat.mod_upper_bound (length l + step - 1) step) as Hmod.
    nia.
Qed.

Lemma batches_partition_witness :
  (0 < 2)%nat
  ∧ concat (map (λ i, slice [10; 20; 30; 40; 50]%nat i (i + 2))
              (range_step 5 2))
    = [10; 20; 30; 40; 50]%nat
  ∧ Forall (λ batch : list nat, (1 ≤ length batch ≤ 2)%nat)
      (map (λ i, slice [10; 20; 30; 40; 50]%nat i (i + 2)) (range_step 5 2)).
Proof.
  assert (H : (0 < 2)%nat) by lia.
  split; [exact H|].
  exact (batches_partition [10; 20; 30; 40; 50]%nat 2 H).
Defined.

(** *** Concrete runs for the further properties *)

Lemma sync_products_raises_fetch_errors_only_witness :
  let env := example_collaborators unreachable_remote "moysklad_to_shopify" in
  let e := MoyskladError "connection refused" in
  (sync_products (H:=env) false fresh_state).1 = Raise e
  ∧ fetch_error (H:=env) e
  ∧ last (trace (sync_products (H:=env) false fresh_state).2)
    = Some (EvLog ERROR (sync_products_error_template e) [AExc e]).
Proof.
  intros env e.
  assert (Hrun : (sync_products (H:=env) false fresh_state).1 = Raise e)
    by reflexivity.
  split; [exact Hrun|].
  exact (sync_products_raises_fetch_errors_only (H:=env) false fresh_state
           e Hrun).
Defined.

Lemma sync_products_advances_despite_task_failures_witness :
  let env :=
    example_collaborators
      (rejecting_remote [product_A; product_B] [product_C])
      "moysklad_to_shopify" in
  catalogs_reachable (H:=env)
  ∧ ∃ s', sync_products (H:=env) false fresh_state = (Ok tt, s')
          ∧ last_sync_time s' = Some (example_clock 0).
Proof.
  intros env.
  assert (Hreach : catalogs_reachable (H:=env)) by (split; reflexivity).
  split; [exact Hreach|].
  exact (sync_products_advances_despite_task_failures (H:=env) false
           fresh_state Hreach).
Defined.

Lemma keyless_products_are_left_alone_witness :
  let env := example_collaborators (steady_remote [] []) "moysklad_to_shopify" in
  let run :=
    _sync_moysklad_to_shopify (H:=env) [product_without_key]
      (index_by sh_sku [product_C]) in
  Forall (λ p : @MoyskladProduct Z, truthy (ms_code p) = false)
    [product_without_key]
  ∧ (run fresh_state).1 = Ok tt
  ∧ ∃ evs, Extends fresh_state evs (run fresh_state).2
           ∧ calls_of evs = [] ∧ sleeps_of evs = [].
Proof.
  intros env run.
  assert (Hnone : Forall (λ p : @MoyskladProduct Z, truthy (ms_code p) = false)
                    [product_without_key]) by (repeat constructor).
  split; [exact Hnone|].
  exact (proj1 (keyless_products_are_left_alone (H:=env))
           [product_without_key] (index_by sh_sku [product_C]) fresh_state
           Hnone).
Defined.

Lemma run_stops_when_products_phase_fails_witness :
  let env := example_collaborators unreachable_remote "moysklad_to_shopify" in
  (∀ tr flag since,
     is_ok (ms_get_all_products unreachable_remote tr flag since) = false)
  ∧ (∃ e, (run_complete_sync (H:=env) synced_state).1 = Raise e
          ∧ Sends (run_complete_sync (H:=env)) synced_state
              [MsGetAllProducts false None]
          ∧ last_sync_time (run_complete_sync (H:=env) synced_state).2
            = last_sync_time synced_state)
  ∧ (∃ e since,
       (run_incremental_sync (H:=env) synced_state).1 = Raise e
       ∧ Sends (run_incremental_sync (H:=env)) synced_state
           [MsGetAllProducts false (Some since)]
       ∧ last_sync_time (run_incremental_sync (H:=env) synced_state).2
         = last_sync_time synced_state).
Proof.
  intros env.
  assert (Hdown : ∀ tr flag since,
            is_ok (ms_get_all_products unreachable_remote tr flag since)
            = false) by reflexivity.
  split; [exact Hdown|].
  exact (run_stops_when_products_phase_fails (H:=env) synced_state Hdown).
Defined.

Lemma products_phase_fetches_witness :
  let env :=
    example_collaborators (steady_remote [product_A; product_B] [product_C])
      "moysklad_to_shopify" in
  let since := Some 1699990000000000%Z in
  (sync_products (H:=env) false synced_state).1 = Ok tt
  ∧ ∃ rest,
      Sends (sync_products (H:=env) false) synced_state
        ([MsGetAllProducts false since; ShGetAllProducts false since]
         ++ [MsGetAllProducts false None; ShGetAllProducts false None]
         ++ rest)
      ∧ Forall (λ c, ¬ is_fetch c) rest.
Proof.
  intros env since.
  assert (Hrun : (sync_products (H:=env) false synced_state).1 = Ok tt)
    by (vm_compute; reflexivity).
  split; [exact Hrun|].
  exact (products_phase_fetches (H:=env) false synced_state Hrun).
Defined.

Lemma incremental_run_inventory_cutoff_witness :
  let env :=
    example_collaborators (steady_remote [product_A; product_B] [product_C])
      "moysklad_to_shopify" in
  catalogs_reachable (H:=env)
  ∧ ∃ evs,
      Extends fresh_state evs (run_incremental_sync (H:=env) fresh_state).2
      ∧ MsGetAllProducts true (Some (example_clock 1)) ∈ calls_of evs.
Proof.
  intros env.
  assert (Hreach : catalogs_reachable (H:=env)) by (split; reflexivity).
  split; [exact Hreach|].
  exact (incremental_run_inventory_cutoff (H:=env) fresh_state Hreach).
Defined.

Lemma up_to_date_products_send_nothing_witness :
  let env := example_collaborators (steady_remote [] []) "moysklad_to_shopify" in
  let index := index_by sh_sku [product_C] in
  (∀ p, p ∈ [product_A_stale] → truthy (ms_code p) = true →
        ∃ sp, dict_get index (ms_code p) = Some sp
              ∧ not_newer (ms_updated_at p) (sh_updated_at sp) = true)
  ∧ (_sync_moysklad_to_shopify (H:=env) [product_A_stale] index fresh_state).1
    = Ok tt
  ∧ Sends (_sync_moysklad_to_shopify (H:=env) [product_A_stale] index)
      fresh_state [].
Proof.
  intros env index.
  assert (Hsync : ∀ p, p ∈ [product_A_stale] → truthy (ms_code p) = true →
            ∃ sp, dict_get index (ms_code p) = Some sp
                  ∧ not_newer (ms_updated_at p) (sh_updated_at sp) = true).
  { intros p Hin%list_elem_of_singleton _. subst p.
    exists product_C. split; vm_compute; reflexivity. }
  split; [exact Hsync|].
  exact (proj1 (up_to_date_products_send_nothing (H:=env))
           [product_A_stale] index fresh_state Hsync).
Defined.

Lemma agreeing_prices_send_nothing_witness :
  let env := example_collaborators (steady_remote [] []) "moysklad_to_shopify" in
  let index := index_by sh_sku [product_C] in
  (∀ ms_product shopify_product,
     (ms_product, shopify_product) ∈ moysklad_price_pairs [product_A] index →
     sh_price shopify_product = ms_price ms_product)
  ∧ Sends (_sync_prices_moysklad_to_shopify (H:=env) [product_A] index 50)
      fresh_state [].
Proof.
  intros env index.
  assert (Hsame : ∀ ms_product shopify_product,
            (ms_product, shopify_product)
              ∈ moysklad_price_pairs [product_A] index →
            sh_price shopify_product = ms_price ms_product).
  { intros ms sp Hin.
    assert (moysklad_price_pairs [product_A] index = [(product_A, product_C)])
      as Hpairs by (vm_compute; reflexivity).
    rewrite Hpairs in Hin. apply list_elem_of_singleton in Hin.
    by injection Hin as -> ->. }
  split; [exact Hsame|].
  exact (proj1 (agreeing_prices_send_nothing (H:=env))
           [product_A] index 50%nat fresh_state Hsame).
Defined.
